(** * mtexts: content extraction, dispatch and the per-file loop

    A shallow embedding of [extractors.py], of the fetch functions, the
    listing and the paths of [google_drive.py], of
    [generate_content_summary] and [retry_with_exponential_backoff] from
    [ai_summary.py], of the processing loop and the configuration of
    [main.py], and of [create_anchor_link] from [markdown_generator.py].

    Python [str] values are sequences of Unicode code points, [bytes]
    values are sequences of bytes.  Code that can raise runs in a small
    state-and-exception monad whose state holds the temporary directory and
    the log of the calls made on the clients of the remote services.  The
    third-party libraries (Drive client, PyPDF2, python-docx, python-pptx,
    BeautifulSoup, OpenAI) are fields of an environment record: each one is
    an arbitrary function that either returns or raises. *)

From stdpp Require Import gmap list strings.
From Stdlib Require Import NArith Ascii String.
From Stdlib Require Import Strings.Byte.
From Equations Require Import Equations.

(* The two loops defined by well-founded recursion are unfolded without
   functional extensionality. *)
Unset Equations With Funext.

Local Open Scope N_scope.
Local Open Scope list_scope.

(** ** Python strings *)

Module PyStr.

(** A [str] is a list of code points. *)
Abbreviation pystr := (list N).

(** An ASCII source literal as a [str]. *)
Definition py (s : string) : pystr :=
  List.map N_of_ascii (list_ascii_of_string s).

(** An ASCII source literal as [bytes]. *)
Definition pyb (s : string) : list byte := list_byte_of_string s.

Definition NL : pystr := [10].

(** [sep.join(parts)] *)
Fixpoint join (sep : pystr) (parts : list pystr) : pystr :=
  match parts with
  | [] => []
  | [p] => p
  | p :: ps => p ++ sep ++ join sep ps
  end.

(** [str.isspace] on one code point: the characters CPython's
    [_PyUnicode_IsWhitespace] accepts. *)
Definition isspace (c : N) : bool :=
  ((9 <=? c) && (c <=? 13)) || ((28 <=? c) && (c <=? 32))
  || (c =? 133) || (c =? 160) || (c =? 5760)
  || ((8192 <=? c) && (c <=? 8202))
  || (c =? 8232) || (c =? 8233) || (c =? 8239) || (c =? 8287)
  || (c =? 12288).

(** [s.lstrip()], [s.rstrip()], [s.strip()] without argument. *)
Fixpoint lstrip (s : pystr) : pystr :=
  match s with
  | c :: s' => if isspace c then lstrip s' else s
  | [] => []
  end.

Fixpoint rstrip (s : pystr) : pystr :=
  match s with
  | [] => []
  | c :: s' =>
      match rstrip s' with
      | [] => if isspace c then [] else [c]
      | r => c :: r
      end
  end.

Definition strip (s : pystr) : pystr := rstrip (lstrip s).

(** Truth value of a [str]: non-empty. *)
Definition truthy (s : pystr) : bool :=
  match s with [] => false | _ => true end.

(** Line boundaries recognised by [str.splitlines]. *)
Definition is_linebreak (c : N) : bool :=
  ((10 <=? c) && (c <=? 13)) || ((28 <=? c) && (c <=? 30))
  || (c =? 133) || (c =? 8232) || (c =? 8233).

(** [s.splitlines()]: [cur] is the line being read, in reverse.  A line
    feed right after a carriage return belongs to the same boundary, and
    no empty last line is produced. *)
Fixpoint splitlines_aux (cur : pystr) (s : pystr) : list pystr :=
  match s with
  | [] => match cur with [] => [] | _ => [rev cur] end
  | c :: s' =>
      if is_linebreak c then
        rev cur ::
        splitlines_aux []
          match s' with
          | d :: s'' => if (c =? 13) && (d =? 10) then s'' else s'
          | [] => s'
          end
      else splitlines_aux (c :: cur) s'
  end.

Definition splitlines (s : pystr) : list pystr := splitlines_aux [] s.

(** [s.split("  ")]: split at each non-overlapping pair of spaces, scanning
    from the left; [cur] is the piece being read, in reverse. *)
Fixpoint split2_aux (cur : pystr) (s : pystr) : list pystr :=
  match s with
  | [] => [rev cur]
  | c :: s' =>
      match s' with
      | d :: s'' =>
          if (c =? 32) && (d =? 32) then rev cur :: split2_aux [] s''
          else split2_aux (c :: cur) s'
      | [] => split2_aux (c :: cur) s'
      end
  end.

Definition split2 (s : pystr) : list pystr := split2_aux [] s.

(** [needle in s] *)
Fixpoint starts_with (needle s : pystr) : bool :=
  match needle, s with
  | [], _ => true
  | a :: n', b :: s' => (a =? b) && starts_with n' s'
  | _ :: _, [] => false
  end.

Fixpoint contains (needle s : pystr) : bool :=
  starts_with needle s ||
  match s with
  | [] => false
  | _ :: s' => contains needle s'
  end.

End PyStr.

Import PyStr.

(** ** [bytes.decode('utf-8')] *)

Module Utf8.

(** A multi-byte sequence in progress: the bits read so far, the number of
    continuation bytes still expected, and the range the next byte must
    lie in (narrower than 80..BF after E0, ED, F0 and F4). *)
Record pending := { acc : N; more : nat; lo : N; hi : N }.

(** What the first byte of a sequence does. *)
Inductive lead :=
| Scalar (cp : N)
| Begin (p : pending)
| Invalid.

Definition start_byte (b : N) : lead :=
  if b <? 128 then Scalar b
  else if b <? 194 then Invalid
  else if b <? 224 then
    Begin {| acc := b - 192; more := 1; lo := 128; hi := 191 |}
  else if b <? 240 then
    Begin {| acc := b - 224; more := 2;
             lo := if b =? 224 then 160 else 128;
             hi := if b =? 237 then 159 else 191 |}
  else if b <? 245 then
    Begin {| acc := b - 240; more := 3;
             lo := if b =? 240 then 144 else 128;
             hi := if b =? 244 then 143 else 191 |}
  else Invalid.

(** The decoder: one item per well-formed sequence ([Some] code point) and
    one [None] per maximal ill-formed subsequence.  A byte that cannot
    continue the sequence in progress ends it as ill-formed and is read
    again as a first byte. *)
Fixpoint scan (st : option pending) (bs : list byte) : list (option N) :=
  match bs with
  | [] => match st with Some _ => [None] | None => [] end
  | b :: bs' =>
      let n := Byte.to_N b in
      let restart (pre : list (option N)) :=
        match start_byte n with
        | Scalar cp => pre ++ Some cp :: scan None bs'
        | Begin p => pre ++ scan (Some p) bs'
        | Invalid => pre ++ None :: scan None bs'
        end in
      match st with
      | None => restart []
      | Some p =>
          if (lo p <=? n) && (n <=? hi p) then
            let a := acc p * 64 + (n - 128) in
            match more p with
            | 1%nat | 0%nat => Some a :: scan None bs'
            | S k => scan (Some {| acc := a; more := k; lo := 128; hi := 191 |}) bs'
            end
          else restart [None]
      end
  end.

Definition well_formed (bs : list byte) : bool :=
  forallb (fun x => match x with Some _ => true | None => false end)
          (scan None bs).

(** Text of a well-formed byte string. *)
Definition code_points (bs : list byte) : pystr :=
  omap id (scan None bs).

(** [bs.decode('utf-8', errors='replace')]: each ill-formed subsequence
    becomes U+FFFD. *)
Definition decode_replace (bs : list byte) : pystr :=
  List.map (fun x => match x with Some cp => cp | None => 65533 end)
           (scan None bs).

End Utf8.

Import Utf8.

(** ** Exceptions, state and the monad *)

(** An exception of class [Exception], identified with its [str(e)]. *)
Inductive exn := Exception (msg : pystr).

Definition str (e : exn) : pystr := let 'Exception m := e in m.

Inductive outcome (A : Type) :=
| Ret (a : A)
| Raise (e : exn).
Arguments Ret {A} a.
Arguments Raise {A} e.

(** The calls made on the clients of the remote services, in the order
    they are made.  A call stands for the request it asks for; a client
    that refuses a call before sending anything (a download without a
    file id, say) raises, and the call is in the log all the same, so the
    log holds every request sent and possibly more. *)
Inductive request :=
| GetMedia (file_id : option pystr)
| ExportMedia (file_id : option pystr) (mime_type : pystr)
| OpenAIClient
| ChatCompletion (prompt : pystr).

(** The part of the machine the code acts on: the files of the temporary
    directory, by path, and the calls made on the clients so far. *)
Record world := World {
  tmpfiles : gmap nat (list byte);
  requests : list request
}.

Definition M (A : Type) : Type := world -> outcome A * world.

Definition ret {A} (a : A) : M A := fun w => (Ret a, w).
Definition raise {A} (e : exn) : M A := fun w => (Raise e, w).
Definition bind {A B} (m : M A) (k : A -> M B) : M B :=
  fun w => match m w with
           | (Ret a, w') => k a w'
           | (Raise e, w') => (Raise e, w')
           end.

(** [try: m  except Exception as e: h e] *)
Definition try_except {A} (m : M A) (h : exn -> M A) : M A :=
  fun w => match m w with
           | (Ret a, w') => (Ret a, w')
           | (Raise e, w') => h e w'
           end.

(** A call that returns or raises without touching the state. *)
Definition lift {A} (o : outcome A) : M A := fun w => (o, w).

Definition logged (r : request) (w : world) : world :=
  {| tmpfiles := tmpfiles w; requests := requests w ++ [r] |}.

Definition send (r : request) : M unit := fun w => (Ret tt, logged r w).

Declare Scope py_scope.
Delimit Scope py_scope with M.
Notation "x <- m ;; k" := (bind m (fun x => k))
  (at level 100, m at next level, right associativity) : py_scope.
Notation "m ;;; k" := (bind m (fun _ => k))
  (at level 100, right associativity) : py_scope.
Local Open Scope py_scope.

(** ** The collaborators *)

(** A node of a parsed HTML page.  [get_text] returns the strings of
    class [NavigableString] and [CData]; the strings of the other classes
    (comments, declarations, doctype, processing instructions) are
    skipped. *)
#[warnings="-register-all"]
Inductive node :=
| NavigableString (s : pystr)
| CData (s : pystr)
| OtherString (s : pystr)
| Tag (name : pystr) (children : list node).

(** Everything the code calls and does not define.  A collaborator answers
    the same request the same way throughout a run. *)
Record env := {
  (* Drive: [files().get_media] and [files().export_media], downloaded
     to the end by [MediaIoBaseDownload] *)
  get_media : option pystr -> outcome (list byte);
  export_media : option pystr -> pystr -> outcome (list byte);
  (* [str(e)] of the [UnicodeDecodeError] raised on these bytes *)
  decode_error : list byte -> pystr;
  (* [PyPDF2.PdfReader(b)]: the pages, each with what its
     [extract_text()] does *)
  PdfReader : list byte -> outcome (list (outcome pystr));
  (* [tempfile.NamedTemporaryFile], [write], [os.unlink]: the exception
     each raises, if any *)
  tempfile_error : option exn;
  write_error : option exn;
  unlink_error : option exn;
  (* [docx.Document(path)]: the text of each paragraph *)
  DOCX_AVAILABLE : bool;
  docx_Document : list byte -> outcome (list pystr);
  (* [pptx.Presentation(path)]: per slide, per shape, the text of the
     shape when it has a [text] attribute *)
  PPTX_AVAILABLE : bool;
  pptx_Presentation : list byte -> outcome (list (list (option pystr)));
  (* [BeautifulSoup(html, 'html.parser')]: the top-level nodes *)
  BS4_AVAILABLE : bool;
  BeautifulSoup : pystr -> outcome (list node);
  (* [OpenAI(api_key=...)], and the chat completion parsed as JSON: the
     values under ['summary'] and ['key_concepts'], when present *)
  OpenAI : outcome unit;
  chat_completion : pystr -> outcome (option pystr * option (list pystr))
}.

(** [content.getvalue().decode('utf-8')] *)
Definition decode_strict (E : env) (bs : list byte) : M pystr :=
  if well_formed bs then ret (code_points bs)
  else raise (Exception (decode_error E bs)).

(** ** google_drive.py *)

(** A [BytesIO] holding the bytes, or [None].  A [BytesIO] is true
    whatever it holds.  The call of [get_media] is logged before the
    client answers: when the client raises, at once or while
    downloading, the function returns [None]. *)
Definition download_file (E : env) (file_id : option pystr)
  : M (option (list byte)) :=
  try_except
    (send (GetMedia file_id) ;;;
     file_content <- lift (get_media E file_id) ;;
     ret (Some file_content))
    (fun _ => ret None).

(** The same for [export_media]. *)
Definition export_google_doc (E : env) (file_id : option pystr)
  (mime_type : pystr) : M (option (list byte)) :=
  try_except
    (send (ExportMedia file_id mime_type) ;;;
     file_content <- lift (export_media E file_id mime_type) ;;
     ret (Some file_content))
    (fun _ => ret None).

(** ** extractors.py *)

(** The temporary directory.  [NamedTemporaryFile(delete=False)] creates
    an empty file under a name not in use; the file stays when the [with]
    block is left, also by an exception. *)
Definition NamedTemporaryFile (E : env) : M nat :=
  fun w =>
    match tempfile_error E with
    | Some e => (Raise e, w)
    | None =>
        let temp_path := fresh (dom (tmpfiles w)) in
        (Ret temp_path,
         {| tmpfiles := <[temp_path := []]> (tmpfiles w);
            requests := requests w |})
    end.

Definition write (E : env) (path : nat) (data : list byte) : M unit :=
  fun w =>
    match write_error E with
    | Some e => (Raise e, w)
    | None =>
        (Ret tt,
         {| tmpfiles := <[path := data]> (tmpfiles w);
            requests := requests w |})
    end.

Definition unlink (E : env) (path : nat) : M unit :=
  fun w =>
    match unlink_error E, tmpfiles w !! path with
    | Some e, _ => (Raise e, w)
    | None, None => (Raise (Exception (py "No such file or directory")), w)
    | None, Some _ =>
        (Ret tt,
         {| tmpfiles := delete path (tmpfiles w); requests := requests w |})
    end.

(** What a library that opens [path] reads. *)
Definition read_file (path : nat) : M (list byte) :=
  fun w =>
    match tmpfiles w !! path with
    | Some data => (Ret data, w)
    | None => (Raise (Exception (py "No such file or directory")), w)
    end.

Definition extract_google_doc (E : env) (file_id : option pystr) : M pystr :=
  try_except
    (content <- export_google_doc E file_id (py "text/plain") ;;
     match content with
     | Some b => decode_strict E b
     | None => ret []
     end)
    (fun e => ret (py "[Error extracting Google Doc: " ++ str e ++ py "]")).

Definition extract_google_sheet (E : env) (file_id : option pystr) : M pystr :=
  try_except
    (content <- export_google_doc E file_id (py "text/csv") ;;
     match content with
     | Some b => decode_strict E b
     | None => ret []
     end)
    (fun e => ret (py "[Error extracting Google Sheet: " ++ str e ++ py "]")).

(** The loop over the pages: [text += page.extract_text() + "\n\n"]. *)
Fixpoint pdf_pages (pages : list (outcome pystr)) (text : pystr) : M pystr :=
  match pages with
  | [] => ret text
  | page :: rest =>
      page_text <- lift page ;;
      pdf_pages rest (text ++ (page_text ++ NL ++ NL))
  end.

Definition extract_text_from_pdf_bytes (E : env) (pdf_bytes : list byte)
  : M pystr :=
  try_except
    (pages <- lift (PdfReader E pdf_bytes) ;;
     pdf_pages pages [])
    (fun e => ret (py "[Error extracting PDF content: " ++ str e ++ py "]")).

Definition extract_google_slides (E : env) (file_id : option pystr) : M pystr :=
  try_except
    (content <- export_google_doc E file_id (py "text/plain") ;;
     match content with
     | Some b => decode_strict E b
     | None =>
         pdf_content <- export_google_doc E file_id (py "application/pdf") ;;
         match pdf_content with
         | Some pdf => extract_text_from_pdf_bytes E pdf
         | None => ret []
         end
     end)
    (fun e => ret (py "[Error extracting Google Slides: " ++ str e ++ py "]")).

Definition extract_pdf (E : env) (file_id : option pystr) : M pystr :=
  try_except
    (content <- download_file E file_id ;;
     match content with
     | Some b => extract_text_from_pdf_bytes E b
     | None => ret []
     end)
    (fun e => ret (py "[Error extracting PDF: " ++ str e ++ py "]")).

(** [for para in doc.paragraphs: full_text.append(para.text)] *)
Definition docx_paragraphs (paragraphs : list pystr) : list pystr :=
  fold_left (fun full_text para => full_text ++ [para]) paragraphs [].

Definition extract_docx (E : env) (file_id : option pystr) : M pystr :=
  if negb (DOCX_AVAILABLE E) then
    ret (py "[python-docx library not installed. Cannot extract DOCX content.]")
  else
    try_except
      (content <- download_file E file_id ;;
       match content with
       | None => ret []
       | Some b =>
           temp_path <- NamedTemporaryFile E ;;
           write E temp_path b ;;;
           data <- read_file temp_path ;;
           doc <- lift (docx_Document E data) ;;
           let full_text := docx_paragraphs doc in
           try_except (unlink E temp_path) (fun _ => ret tt) ;;;
           ret (join NL full_text)
       end)
      (fun e => ret (py "[Error extracting DOCX: " ++ str e ++ py "]")).

(** The two loops of [extract_pptx]: over the shapes of a slide, keeping
    the text of those that have one, and over the slides, keeping those
    whose list of texts is not empty. *)
Definition pptx_slide_text (shapes : list (option pystr)) : list pystr :=
  fold_left
    (fun slide_text shape =>
       match shape with
       | Some text => slide_text ++ [text]
       | None => slide_text
       end)
    shapes [].

Definition pptx_full_text (slides : list (list (option pystr))) : list pystr :=
  fold_left
    (fun full_text slide =>
       match pptx_slide_text slide with
       | [] => full_text
       | slide_text => full_text ++ [join NL slide_text]
       end)
    slides [].

Definition extract_pptx (E : env) (file_id : option pystr) : M pystr :=
  if negb (PPTX_AVAILABLE E) then
    ret (py "[python-pptx library not installed. Cannot extract PPTX content.]")
  else
    try_except
      (content <- download_file E file_id ;;
       match content with
       | None => ret []
       | Some b =>
           temp_path <- NamedTemporaryFile E ;;
           write E temp_path b ;;;
           data <- read_file temp_path ;;
           presentation <- lift (pptx_Presentation E data) ;;
           let full_text := pptx_full_text presentation in
           try_except (unlink E temp_path) (fun _ => ret tt) ;;;
           ret (join (NL ++ NL) full_text)
       end)
      (fun e => ret (py "[Error extracting PPTX: " ++ str e ++ py "]")).

Definition extract_text_file (E : env) (file_id : option pystr) : M pystr :=
  try_except
    (content <- download_file E file_id ;;
     match content with
     | Some b => ret (decode_replace b)
     | None => ret []
     end)
    (fun e => ret (py "[Error extracting text file: " ++ str e ++ py "]")).

(** [for script in soup(["script", "style"]): script.extract()]: every
    tag of one of the two names leaves the tree, with all it contains. *)
Definition is_script_or_style (name : pystr) : bool :=
  bool_decide (name = py "script") || bool_decide (name = py "style").

Fixpoint extract_scripts (n : node) : list node :=
  match n with
  | Tag name children =>
      if is_script_or_style name then []
      else [Tag name (flat_map extract_scripts children)]
  | _ => [n]
  end.

(** [get_text()]: the strings of the tree, in document order. *)
Fixpoint get_text (n : node) : pystr :=
  match n with
  | NavigableString s | CData s => s
  | OtherString _ => []
  | Tag _ children => flat_map get_text children
  end.

(** Lines stripped, split at double spaces, pieces stripped, empty pieces
    dropped, the rest joined by newlines. *)
Definition html_chunks (text : pystr) : list pystr :=
  let lines := List.map strip (splitlines text) in
  flat_map (fun line => List.map strip (split2 line)) lines.

Definition html_text (text : pystr) : pystr :=
  join NL (List.filter truthy (html_chunks text)).

Definition extract_html (E : env) (file_id : option pystr) : M pystr :=
  if negb (BS4_AVAILABLE E) then
    ret (py "[BeautifulSoup4 library not installed. Cannot extract HTML content.]")
  else
    try_except
      (content <- download_file E file_id ;;
       match content with
       | None => ret []
       | Some b =>
           let html_content := decode_replace b in
           soup <- lift (BeautifulSoup E html_content) ;;
           let soup := flat_map extract_scripts soup in
           let text := flat_map get_text soup in
           ret (html_text text)
       end)
      (fun e => ret (py "[Error extracting HTML: " ++ str e ++ py "]")).

(** File metadata as listed by Drive: the keys ['id'], ['name'] and
    ['mimeType'] of the dictionary.  The listing asks for the three of
    them; ['id'] and ['mimeType'] are read with [get] and may be missing,
    ['name'] is indexed. *)
Record file_info := {
  fi_id : option pystr;
  fi_name : pystr;
  fi_mimeType : option pystr
}.

Definition extract_file_content (E : env) (fi : file_info) : M pystr :=
  let mime_type := default [] (fi_mimeType fi) in
  let file_id := fi_id fi in
  if bool_decide (mime_type = py "application/vnd.google-apps.document") then
    extract_google_doc E file_id
  else if bool_decide (mime_type = py "application/vnd.google-apps.spreadsheet") then
    extract_google_sheet E file_id
  else if bool_decide (mime_type = py "application/vnd.google-apps.presentation") then
    extract_google_slides E file_id
  else if bool_decide (mime_type = py "application/pdf") then
    extract_pdf E file_id
  else if bool_decide (mime_type = py "application/vnd.openxmlformats-officedocument.wordprocessingml.document") then
    extract_docx E file_id
  else if bool_decide (mime_type = py "application/vnd.openxmlformats-officedocument.presentationml.presentation") then
    extract_pptx E file_id
  else if bool_decide (mime_type = py "text/plain") then
    extract_text_file E file_id
  else if bool_decide (mime_type = py "text/html") then
    extract_html E file_id
  else if bool_decide (mime_type = py "text/markdown") then
    extract_text_file E file_id
  else
    ret (py "[Content extraction not supported for file type: " ++ mime_type ++ py "]").

(** ** ai_summary.py *)

Record summary_result := {
  summary : pystr;
  key_concepts : list pystr
}.

Definition generate_content_summary (E : env) (content : pystr)
  : M summary_result :=
  if negb (truthy content) || negb (truthy (strip content)) then
    ret {| summary := py "No content available to summarize.";
           key_concepts := [] |}
  else
    send OpenAIClient ;;;
    lift (OpenAI E) ;;;
    let char_limit := 8000 * 4 in
    let too_long := char_limit <? N.of_nat (List.length content) in
    let truncated_content :=
      if too_long then firstn (N.to_nat char_limit) content else content in
    let truncated_content :=
      if too_long
      then truncated_content ++ NL ++ NL ++ py "[Content truncated due to length]"
      else truncated_content in
    try_except
      (let user_prompt :=
         py "Please summarize this document and extract its key concepts:"
            ++ NL ++ NL ++ truncated_content in
       send (ChatCompletion user_prompt) ;;;
       result <- lift (chat_completion E user_prompt) ;;
       match result with
       | (Some s, Some k) => ret {| summary := s; key_concepts := k |}
       | (s, k) =>
           ret {| summary := default (py "Summary generation failed.") s;
                  key_concepts := default [] k |}
       end)
      (fun e =>
         ret {| summary := py "Error generating summary: " ++ str e;
                key_concepts := [py "Summary generation failed"] |}).

(** ** main.py *)

Record doc_entry := {
  metadata : file_info;
  doc_summary : summary_result;
  content : pystr
}.

Definition extract_content := extract_file_content.
Definition generate_summary := generate_content_summary.

(** The body of the loop of [main] for one file; [results] is the list
    built so far. *)
Definition process_file (E : env) (results : list doc_entry)
  (fi : file_info) : M (list doc_entry) :=
  try_except
    (content <- extract_content E fi ;;
     if truthy content && truthy (strip content) then
       summary <- generate_summary E content ;;
       ret (results ++ [ {| metadata := fi;
                            doc_summary := summary;
                            content := content |} ])
     else ret results)
    (fun _ => ret results).

Fixpoint process_files (E : env) (files : list file_info)
  (results : list doc_entry) : M (list doc_entry) :=
  match files with
  | [] => ret results
  | fi :: rest =>
      results' <- process_file E results fi ;;
      process_files E rest results'
  end.

(** ** google_drive.py: paths and the listing *)

(** The answer to [files().get(fileId=..., fields='name,parents')]: the
    keys ['name'] and ['parents'] of the dictionary, when present. *)
Record folder_info := {
  folder_name : option pystr;
  folder_parents : option (list pystr)
}.

(** A file of the listing: the keys read by the extraction, and
    ['parents'] when present. *)
Record listed_file := {
  lf_info : file_info;
  lf_parents : option (list pystr)
}.

(** A page of [files().list(...)]: the keys ['files'] and
    ['nextPageToken'], when present. *)
Record page := {
  page_files : option (list listed_file);
  nextPageToken : option pystr
}.

(** The two requests of the Drive service that the listing uses: the
    page of a query after a token, and the name and parents of a folder. *)
Record drive_service := {
  files_list : pystr -> option pystr -> outcome page;
  files_get : pystr -> outcome folder_info
}.

(** A value that is a non-empty string, as tested by [while x:] and
    [if not x:] ([None] and [''] are false). *)
Definition nonempty (x : option pystr) : option pystr :=
  match x with
  | Some (c :: s) => Some (c :: s)
  | _ => None
  end.

(** [parent_info.get('parents', [None])[0]] *)
Definition first_parent (parent_info : folder_info) : outcome (option pystr) :=
  match folder_parents parent_info with
  | None => Ret None
  | Some [] => Raise (Exception (py "list index out of range"))
  | Some (parent :: _) => Ret (Some parent)
  end.

(** The loop of [get_file_path], from the test of [while current_parent:]
    on.  A turn that does not leave the loop makes [path_parts] longer,
    and no turn starts with more than 100 parts. *)
Equations? path_loop (drive : drive_service)
  (current_parent : option pystr) (path_parts : list pystr) : list pystr
  by wf (101 - List.length path_parts)%nat lt :=
  path_loop drive current_parent path_parts with nonempty current_parent := {
    | None => path_parts
    | Some folder with files_get drive folder := {
      | Raise _ => py "..." :: path_parts
      | Ret parent_info with folder_name parent_info := {
        | None => py "..." :: path_parts
        | Some name with first_parent parent_info := {
          | Raise _ => py "..." :: name :: path_parts
          | Ret current_parent'
              with le_lt_dec (List.length (name :: path_parts)) 100 := {
            | right _ => py "..." :: name :: path_parts
            | left _ => path_loop drive current_parent' (name :: path_parts)
            } } } } }.
Proof. cbn in *. lia. Qed.

Definition get_file_path (drive : drive_service) (file : listed_file)
  : pystr :=
  let name := fi_name (lf_info file) in
  match lf_parents file with
  | Some (current_parent :: _) =>
      py "/" ++ join (py "/") (path_loop drive (Some current_parent) [name])
  | _ => py "/" ++ name
  end.

(** The loop of [list_all_files].  Nothing in the code bounds the number
    of pages, so the model counts the turns it may still take; [None]
    means that the loop has not ended within them. *)
Fixpoint list_pages (drive : drive_service) (query : pystr) (fuel : nat)
  (page_token : option pystr) (all_files : list listed_file)
  : option (list listed_file) :=
  match fuel with
  | O => None
  | S fuel =>
      match files_list drive query page_token with
      | Raise _ => Some all_files
      | Ret response =>
          let all_files := all_files ++ default [] (page_files response) in
          match nonempty (nextPageToken response) with
          | None => Some all_files
          | Some token => list_pages drive query fuel (Some token) all_files
          end
      end
  end.

Definition list_query (folder_id : option pystr) : pystr :=
  match nonempty folder_id with
  | Some folder => py "trashed = false" ++ py " and '" ++ folder ++ py "' in parents"
  | None => py "trashed = false"
  end.

(** Each file of the listing with its ['path']. *)
Definition list_all_files (drive : drive_service) (fuel : nat)
  (folder_id : option pystr) : option (list (listed_file * pystr)) :=
  match list_pages drive (list_query folder_id) fuel None [] with
  | Some all_files =>
      Some (List.map (fun file => (file, get_file_path drive file)) all_files)
  | None => None
  end.

(** ** ai_summary.py: retrying *)

(** What a run of [retry_with_exponential_backoff] did: what it returned
    or raised ([None] when the loop ends without a call), how many times
    it called [func], and the waits it asked for, each without the random
    part in [0, 1] that the code adds. *)
Record retry_run (A : Type) := {
  retry_outcome : outcome (option A);
  retry_calls : nat;
  retry_sleeps : list N
}.
Arguments retry_outcome {A} r.
Arguments retry_calls {A} r.
Arguments retry_sleeps {A} r.

(** [func k] is what the call number [k] of [func] does; each turn that
    does not leave the loop has one more retry behind it, so the turn
    with [retries] behind it makes call number [retries]. *)
Equations? retry_loop {A : Type} (is_rate_limit : exn -> bool)
  (func : nat -> outcome A) (max_retries : nat) (delay : N)
  (retries : nat) (sleeps : list N) : retry_run A
  by wf (max_retries - retries)%nat lt :=
  retry_loop is_rate_limit func max_retries delay retries sleeps
    with lt_dec retries max_retries := {
    | right _ =>
        {| retry_outcome := Ret None; retry_calls := retries;
           retry_sleeps := sleeps |}
    | left _ with func retries := {
      | Ret a =>
          {| retry_outcome := Ret (Some a); retry_calls := S retries;
             retry_sleeps := sleeps |}
      | Raise e with is_rate_limit e := {
        | false =>
            {| retry_outcome := Raise e; retry_calls := S retries;
               retry_sleeps := sleeps |}
        | true with le_lt_dec max_retries (S retries) := {
          | left _ =>
              {| retry_outcome := Raise e; retry_calls := S retries;
                 retry_sleeps := sleeps |}
          | right _ =>
              retry_loop is_rate_limit func max_retries delay (S retries)
                (sleeps ++ [delay * 2 ^ N.of_nat (S retries)])
          } } } }.
Proof. lia. Qed.

Definition retry_with_exponential_backoff {A : Type}
  (is_rate_limit : exn -> bool) (func : nat -> outcome A)
  (max_retries : nat) (initial_delay : N) : retry_run A :=
  retry_loop is_rate_limit func max_retries initial_delay 0 [].

(** ** main.py: the configuration *)

(** The configuration is a dictionary; its values are JSON values or
    strings, of which the code only asks whether they are true. *)
Section Config.

Context {value : Type} (value_true : value -> bool) (of_str : pystr -> value).

(** [environ_key] is the variable OPENAI_API_KEY when set;
    [config_file] is absent when the file does not exist, and otherwise
    what opening and parsing it gives. *)
Definition load_config (environ_key : option pystr)
  (config_file : option (outcome (gmap pystr value)))
  : outcome (gmap pystr value) :=
  let config : gmap pystr value :=
    {[ py "openai_api_key" := of_str (default [] environ_key) ]} in
  let updated :=
    match config_file with
    | Some (Ret file_config) => Ret (file_config ∪ config)
    | Some (Raise e) => Raise e
    | None => Ret config
    end in
  match updated with
  | Ret config =>
      match config !! py "openai_api_key" with
      | Some key =>
          if value_true key then Ret config
          else Raise (Exception (py "OpenAI API key not found. Set OPENAI_API_KEY environment variable or add to config.json"))
      | None => Raise (Exception (py "'openai_api_key'"))
      end
  | Raise e => Raise e
  end.

End Config.

(** ** markdown_generator.py: anchors *)

(** [str.lower] and the classification of the characters above U+007F
    come from the Unicode tables of the interpreter. *)
Section Anchors.

Context (lower : pystr -> pystr) (unicode_alnum : N -> bool).

(** [c.isalnum()] for one character. *)
Definition isalnum (c : N) : bool :=
  if c <? 128 then
    ((48 <=? c) && (c <=? 57)) || ((65 <=? c) && (c <=? 90))
    || ((97 <=? c) && (c <=? 122))
  else unicode_alnum c.

(** A character that [\w] matches. *)
Definition is_word (c : N) : bool := isalnum c || (c =? 95).

Definition create_anchor_link (text : pystr) : pystr :=
  let anchor := lower text in
  let anchor := List.map (fun c => if c =? 32 then 45 else c) anchor in
  let anchor := List.filter (fun c => is_word c || (c =? 45)) anchor in
  match anchor with
  | c :: _ => if negb (isalnum c) then py "doc-" ++ anchor else anchor
  | [] => anchor
  end.

End Anchors.

(** * Vocabulary of the properties *)

(** ** What the dispatcher returns *)

(** A bracketed failure string. *)
Definition bracketed (s : pystr) : Prop :=
  exists body, s = py "[" ++ body ++ py "]".

(** Some request for the file's payload was answered with bytes. *)
Definition fetched (E : env) (file_id : option pystr) : Prop :=
  (exists b, get_media E file_id = Ret b) \/
  (exists m b, export_media E file_id m = Ret b).

(** What a caller of an extractor can see: a string, which is empty, or
    bracketed, or made from a payload that was fetched. *)
Definition returns_text (E : env) (file_id : option pystr)
  (r : outcome pystr * world) : Prop :=
  exists s w', r = (Ret s, w') /\
    (s = [] \/ bracketed s \/ fetched E file_id).

(** The type tags the dispatcher compares against. *)
Definition dispatch_table : list pystr :=
  [ py "application/vnd.google-apps.document";
    py "application/vnd.google-apps.spreadsheet";
    py "application/vnd.google-apps.presentation";
    py "application/pdf";
    py "application/vnd.openxmlformats-officedocument.wordprocessingml.document";
    py "application/vnd.openxmlformats-officedocument.presentationml.presentation";
    py "text/plain";
    py "text/html";
    py "text/markdown" ].

(** The tag the dispatcher reads: [file_info.get('mimeType', '')]. *)
Definition type_tag (fi : file_info) : pystr := default [] (fi_mimeType fi).

(** The library a type tag needs, when it needs one, is installed. *)
Definition library_available (E : env) (tag : pystr) : bool :=
  if bool_decide (tag = py "application/vnd.openxmlformats-officedocument.wordprocessingml.document")
  then DOCX_AVAILABLE E
  else if bool_decide (tag = py "application/vnd.openxmlformats-officedocument.presentationml.presentation")
  then PPTX_AVAILABLE E
  else if bool_decide (tag = py "text/html") then BS4_AVAILABLE E
  else true.

(** ** PDF pages *)

(** The texts of the pages, or the first exception a page raises. *)
Fixpoint page_texts (pages : list (outcome pystr)) : outcome (list pystr) :=
  match pages with
  | [] => Ret []
  | Ret t :: rest =>
      match page_texts rest with
      | Ret ts => Ret (t :: ts)
      | Raise e => Raise e
      end
  | Raise e :: _ => Raise e
  end.

(** Each page's text followed by a blank line. *)
Definition pages_terminated (texts : list pystr) : pystr :=
  flat_map (fun t => t ++ NL ++ NL) texts.

Definition pdf_failure (e : exn) : pystr :=
  py "[Error extracting PDF content: " ++ str e ++ py "]".

(** What the reader makes of the bytes: the text of every page, or the
    exception raised by the reader or by the first page that fails. *)
Definition pdf_document (E : env) (pdf_bytes : list byte)
  : outcome (list pystr) :=
  match PdfReader E pdf_bytes with
  | Ret pages => page_texts pages
  | Raise e => Raise e
  end.

(** ** Temporary files and the Slides fallback *)

(** The state after [data] has been stored under a new name. *)
Definition stored (data : list byte) (w : world) : world :=
  {| tmpfiles := <[fresh (dom (tmpfiles w)) := data]> (tmpfiles w);
     requests := requests w |}.


(** ** Slides of a presentation *)

(** The texts of the shapes of a slide that expose text. *)
Definition shape_texts (shapes : list (option pystr)) : list pystr :=
  omap (fun shape => shape) shapes.

(** One segment per slide that has a shape exposing text. *)
Definition slide_segments (slides : list (list (option pystr)))
  : list pystr :=
  List.map (join NL)
    (List.filter (fun texts => negb (bool_decide (texts = [])))
       (List.map shape_texts slides)).

(** ** HTML pages and substrings *)

(** What the HTML extractor does with the text of a page. *)
Definition html_of (E : env) (html_content : pystr) : pystr :=
  match BeautifulSoup E html_content with
  | Ret soup => html_text (flat_map get_text (flat_map extract_scripts soup))
  | Raise e => py "[Error extracting HTML: " ++ str e ++ py "]"
  end.

(** [needle] occurs in [s] as a contiguous run. *)
Definition occurs (needle s : pystr) : Prop :=
  exists l r, s = l ++ needle ++ r.

(** The strings of a page that count as its text, in document order,
    each with the names of the elements it lies in, the nearest first. *)
Fixpoint text_strings (inside : list pystr) (n : node)
  : list (list pystr * pystr) :=
  match n with
  | NavigableString s | CData s => [(inside, s)]
  | OtherString _ => []
  | Tag name children => flat_map (text_strings (name :: inside)) children
  end.

(** None of the elements is a script or a style element. *)
Definition outside_scripts (inside : list pystr) : bool :=
  forallb (fun name => negb (bool_decide (name ∈ [py "script"; py "style"])))
          inside.

(** The text of the page outside its script and style elements: the
    strings of the page, as the parser delivered it, that have no such
    element around them at any depth. *)
Definition text_outside_scripts (soup : list node) : pystr :=
  flat_map snd
    (List.filter (fun item => outside_scripts (fst item))
       (flat_map (text_strings []) soup)).

(** ** UTF-8 as the standard defines it *)

(** A code point that a text can hold: anything up to U+10FFFF that is
    not a surrogate. *)
Definition scalar (c : N) : bool :=
  (c <? 55296) || ((57344 <=? c) && (c <? 1114112)).

Definition byte_of_N (n : N) : byte := default x00 (Byte.of_N n).

(** The one to four bytes of a character (Unicode, table 3-6). *)
Definition utf8_encode (c : N) : list byte :=
  if c <? 128 then [byte_of_N c]
  else if c <? 2048 then
    [byte_of_N (192 + c / 64); byte_of_N (128 + c mod 64)]
  else if c <? 65536 then
    [byte_of_N (224 + c / 4096); byte_of_N (128 + (c / 64) mod 64);
     byte_of_N (128 + c mod 64)]
  else
    [byte_of_N (240 + c / 262144); byte_of_N (128 + (c / 4096) mod 64);
     byte_of_N (128 + (c / 64) mod 64); byte_of_N (128 + c mod 64)].

(** [text.encode('utf-8')] *)
Definition utf8 (text : pystr) : list byte := flat_map utf8_encode text.

(** Valid UTF-8: the encoding of some text. *)
Definition valid_utf8 (b : list byte) : Prop :=
  exists text, Forall (fun c => scalar c = true) text /\ b = utf8 text.

(** The bytes a character starts with, possibly all of them. *)
Definition starts_char (p : list byte) : Prop :=
  exists c rest, scalar c = true /\ utf8_encode c = p ++ rest.

(** The bytes a character starts with, when some are missing. *)
Definition cut_short (p : list byte) : Prop :=
  exists c rest, scalar c = true /\ rest <> [] /\ utf8_encode c = p ++ rest.

(** Decoding with replacement: a character for each encoding, and
    U+FFFD once for each run of bytes that is the start of a character
    cut short, as long as it can be, and for each other byte that no
    character starts with. *)
Inductive replaced : list byte -> pystr -> Prop :=
| replaced_nil :
    replaced [] []
| replaced_char c bs text :
    scalar c = true ->
    replaced bs text ->
    replaced (utf8_encode c ++ bs) (c :: text)
| replaced_cut p bs text :
    p <> [] ->
    cut_short p ->
    (forall y bs', bs = y :: bs' -> ~ starts_char (p ++ [y])) ->
    replaced bs text ->
    replaced (p ++ bs) (65533 :: text)
| replaced_byte x bs text :
    ~ starts_char [x] ->
    replaced bs text ->
    replaced (x :: bs) (65533 :: text).

(** ** The loop over the files *)

(** Nothing in the temporary directory, nothing requested yet. *)
Definition w0 : world := World ∅ [].

(** The text the dispatcher returns for a file. *)
Definition text_of (E : env) (fi : file_info) : pystr :=
  match fst (extract_file_content E fi w0) with
  | Ret s => s
  | Raise _ => []
  end.

(** The summarizer returns for this text (and does not raise). *)
Definition summarizer_returns (E : env) (text : pystr) : bool :=
  match fst (generate_content_summary E text w0) with
  | Ret _ => true
  | Raise _ => false
  end.

(** The files that get a record: the text is not blank and the
    summarizer returns. *)
Definition keeps (E : env) (fi : file_info) : bool :=
  truthy (strip (text_of E fi)) && summarizer_returns E (text_of E fi).

(** ** Folders above a file and pages of a listing *)

(** The names met when going up from a folder to the top: each folder
    answers with its name and its parents, the top one has none. *)
Inductive ancestors (drive : drive_service) : pystr -> list pystr -> Prop :=
| ancestors_top folder name :
    folder <> [] ->
    files_get drive folder
      = Ret {| folder_name := Some name; folder_parents := None |} ->
    ancestors drive folder [name]
| ancestors_up folder name parent others names :
    folder <> [] ->
    files_get drive folder
      = Ret {| folder_name := Some name;
               folder_parents := Some (parent :: others) |} ->
    ancestors drive parent names ->
    ancestors drive folder (name :: names).

(** The files of the pages served from a token on, up to the page that
    names no next page or to the request that fails. *)
Inductive served (drive : drive_service) (query : pystr)
  : option pystr -> list listed_file -> Prop :=
| served_error token e :
    files_list drive query token = Raise e ->
    served drive query token []
| served_last token response :
    files_list drive query token = Ret response ->
    nonempty (nextPageToken response) = None ->
    served drive query token (default [] (page_files response))
| served_more token response next rest :
    files_list drive query token = Ret response ->
    nonempty (nextPageToken response) = Some next ->
    served drive query (Some next) rest ->
    served drive query token (default [] (page_files response) ++ rest).

(** Some way up from a folder: the names of the folders met, nearest
    first, each of which answers with its name and parents. *)
Inductive climbs (drive : drive_service)
  : option pystr -> list pystr -> Prop :=
| climbs_here current_parent :
    climbs drive current_parent []
| climbs_step current_parent folder parent_info name next names :
    nonempty current_parent = Some folder ->
    files_get drive folder = Ret parent_info ->
    folder_name parent_info = Some name ->
    first_parent parent_info = Ret next ->
    climbs drive next names ->
    climbs drive current_parent (name :: names).

(** ** Retrying *)

(** The waits before the calls number 1 to [k]. *)
Definition backoff (delay : N) (k : nat) : list N :=
  List.map (fun i => delay * 2 ^ N.of_nat i) (seq 1 k).

(** The calls before call number [k] were answered by a rate limit
    error. *)
Definition rate_limited_before {A : Type} (is_rate_limit : exn -> bool)
  (func : nat -> outcome A) (k : nat) : Prop :=
  forall i, (i < k)%nat ->
    exists e, func i = Raise e /\ is_rate_limit e = true.

(** A call that ends the retrying: it returns, or raises something else
    than a rate limit error. *)
Definition decisive {A : Type} (is_rate_limit : exn -> bool)
  (o : outcome A) : bool :=
  match o with
  | Ret _ => true
  | Raise e => negb (is_rate_limit e)
  end.

(** What the caller gets from a call of [func]. *)
Definition passed_on {A : Type} (o : outcome A) : outcome (option A) :=
  match o with
  | Ret a => Ret (Some a)
  | Raise e => Raise e
  end.

(** ** What an extraction leaves behind *)

(** A download or an export of this file. *)
Definition drive_request_for (file_id : option pystr) (r : request) : Prop :=
  r = GetMedia file_id \/ exists mime_type, r = ExportMedia file_id mime_type.

(** From [w] to [w']: at most two requests were sent, all of them for
    this file, and the temporary directory is as before or holds one more
    file, under a name that was free. *)
Definition framed (file_id : option pystr) (w w' : world) : Prop :=
  (exists new,
     requests w' = requests w ++ new /\
     (List.length new <= 2)%nat /\
     Forall (drive_request_for file_id) new) /\
  (tmpfiles w' = tmpfiles w \/
   exists data,
     tmpfiles w' = <[fresh (dom (tmpfiles w)) := data]> (tmpfiles w)).

(** ** The prompt of the summarizer *)

(** What the prompt starts with. *)
Definition prompt_instruction : pystr :=
  py "Please summarize this document and extract its key concepts:"
     ++ NL ++ NL.

(** ** Lines of the HTML output *)

(** No two adjacent spaces. *)
Fixpoint single_spaced (s : pystr) : bool :=
  match s with
  | c :: s' =>
      match s' with
      | d :: _ => negb ((c =? 32) && (d =? 32)) && single_spaced s'
      | [] => true
      end
  | [] => true
  end.

(** A line as [html_text] writes it: not empty, without line boundary,
    without white space at either end and without two adjacent spaces. *)
Definition normal_line (s : pystr) : Prop :=
  s <> [] /\ Forall (fun c => is_linebreak c = false) s /\
  strip s = s /\ single_spaced s = true.

(** * Sample inputs *)

Module Samples.

Definition boom : exn := Exception (py "boom").

(** An environment given by what the download, the export to each format,
    the three parsers, the HTML parser and the OpenAI constructor do; the
    temporary directory works and the chat completion answers. *)
Definition sample_env
  (download : outcome (list byte))
  (export : pystr -> outcome (list byte))
  (pdf : outcome (list (outcome pystr)))
  (docx : outcome (list pystr))
  (pptx : outcome (list (list (option pystr))))
  (soup : outcome (list node))
  (openai : outcome unit) : env :=
  {| get_media := fun _ => download;
     export_media := fun _ mime_type => export mime_type;
     decode_error := fun _ => py "invalid utf-8";
     PdfReader := fun _ => pdf;
     tempfile_error := None;
     write_error := None;
     unlink_error := None;
     DOCX_AVAILABLE := true;
     docx_Document := fun _ => docx;
     PPTX_AVAILABLE := true;
     pptx_Presentation := fun _ => pptx;
     BS4_AVAILABLE := true;
     BeautifulSoup := fun _ => soup;
     OpenAI := openai;
     chat_completion :=
       fun _ => Ret (Some (py "A summary."), Some [py "idea"]) |}.

(** Nothing can be fetched and no parser accepts anything. *)
Definition offline : env :=
  sample_env (Raise boom) (fun _ => Raise boom) (Raise boom) (Raise boom)
             (Raise boom) (Raise boom) (Ret tt).

(** A download that is not an Office document. *)
Definition not_a_zip : list byte := pyb "not a zip".

Definition corrupt_office : env :=
  sample_env (Ret not_a_zip) (fun _ => Raise boom) (Raise boom)
             (Raise boom) (Raise boom) (Raise boom) (Ret tt).



(** A reader that finds two pages. *)
Definition two_pages : env :=
  sample_env (Raise boom) (fun _ => Raise boom)
             (Ret [Ret (py "a"); Ret (py "b")])
             (Raise boom) (Raise boom) (Raise boom) (Ret tt).

(** A deck whose first slide holds an empty text box, whose second slide
    holds a picture only and whose third slide holds a title; and a deck
    whose second slide holds an empty text box. *)
Definition deck_empty_first : list (list (option pystr)) :=
  [ [Some []]; [None]; [Some (py "c")] ].

Definition deck_empty_second : list (list (option pystr)) :=
  [ [Some (py "a")]; [Some []]; [Some (py "c")] ].

(** A deck whose second slide holds a picture only. *)
Definition deck_picture_second : list (list (option pystr)) :=
  [ [Some (py "Title"); None; Some (py "Sub")]; [None]; [Some (py "End")] ].

Definition pptx_of (slides : list (list (option pystr))) : env :=
  sample_env (Ret (pyb "PK")) (fun _ => Raise boom) (Raise boom)
             (Raise boom) (Ret slides) (Raise boom) (Ret tt).

(** A document that can only be exported as plain text, and whose
    export is not UTF-8. *)
Definition ill_formed_doc : env :=
  sample_env (Raise boom)
             (fun mime_type =>
                if bool_decide (mime_type = py "text/plain") then Ret [xff]
                else Raise boom)
             (Raise boom) (Raise boom) (Raise boom) (Raise boom) (Ret tt).

(** A text file that can only be downloaded: "a", a byte that is not
    UTF-8, the first two bytes of the euro sign, "b". *)
Definition ill_formed_text : env :=
  sample_env (Ret [x61; xff; xe2; x82; x62]) (fun _ => Raise boom)
             (Raise boom) (Raise boom) (Raise boom) (Raise boom) (Ret tt).

(** A text file and a document that hold the euro sign. *)
Definition euro_text : env :=
  sample_env (Ret [xe2; x82; xac]) (fun _ => Raise boom)
             (Raise boom) (Raise boom) (Raise boom) (Raise boom) (Ret tt).

Definition euro_doc : env :=
  sample_env (Raise boom) (fun _ => Ret [xe2; x82; xac])
             (Raise boom) (Raise boom) (Raise boom) (Raise boom) (Ret tt).

(** A page where the text of the script block is also the text of a
    paragraph. *)
Definition page_alert_twice : list node :=
  [ Tag (py "p") [NavigableString (py "alert(1)")];
    Tag (py "script") [NavigableString (py "alert(1)")] ].

Definition serves_alert_twice : env :=
  sample_env (Ret (pyb "<p>alert(1)</p><script>alert(1)</script>"))
             (fun _ => Raise boom) (Raise boom) (Raise boom) (Raise boom)
             (Ret page_alert_twice) (Ret tt).

(** A page with a heading, a script block inside a division and a
    paragraph. *)
Definition page_with_script : list node :=
  [ Tag (py "h1") [NavigableString (py "Hi")];
    Tag (py "div") [Tag (py "script") [NavigableString (py "alert(1)")]];
    Tag (py "p") [NavigableString (py " a  b ")] ].

Definition serves_page_with_script : env :=
  sample_env
    (Ret (pyb "<h1>Hi</h1><div><script>alert(1)</script></div><p> a  b </p>"))
             (fun _ => Raise boom) (Raise boom) (Raise boom) (Raise boom)
             (Ret page_with_script) (Ret tt).

(** A Drive with a text file, a blank text file, and nothing else to
    download; the OpenAI client is as given. *)
Definition small_drive (openai : outcome unit) : env :=
  {| get_media := fun file_id =>
       if bool_decide (file_id = Some (py "f1")) then Ret (pyb "hello")
       else if bool_decide (file_id = Some (py "f2")) then Ret (pyb "  ")
       else Raise boom;
     export_media := fun _ _ => Raise boom;
     decode_error := fun _ => py "invalid utf-8";
     PdfReader := fun _ => Raise boom;
     tempfile_error := None;
     write_error := None;
     unlink_error := None;
     DOCX_AVAILABLE := true;
     docx_Document := fun _ => Raise boom;
     PPTX_AVAILABLE := true;
     pptx_Presentation := fun _ => Raise boom;
     BS4_AVAILABLE := true;
     BeautifulSoup := fun _ => Raise boom;
     OpenAI := openai;
     chat_completion :=
       fun _ => Ret (Some (py "A summary."), Some [py "idea"]) |}.

Definition listed (file_id name mime_type : string) : file_info :=
  {| fi_id := Some (py file_id); fi_name := py name;
     fi_mimeType := Some (py mime_type) |}.

(** A text file, a blank text file, a picture and a PDF that cannot be
    downloaded. *)
Definition listing : list file_info :=
  [ listed "f1" "notes.txt" "text/plain";
    listed "f2" "blank.txt" "text/plain";
    listed "f3" "photo.png" "image/png";
    listed "f4" "paper.pdf" "application/pdf" ].

End Samples.

Import Samples.

Module DriveSamples.

(** A report in a folder of the top folder, and a memo without parents. *)
Definition report : listed_file :=
  {| lf_info := listed "f1" "q3.pdf" "application/pdf";
     lf_parents := Some [py "d2"] |}.

Definition memo : listed_file :=
  {| lf_info := listed "f2" "memo.txt" "text/plain"; lf_parents := None |}.

(** A Drive that serves the two files on two pages. *)
Definition shared_drive : drive_service :=
  {| files_list := fun query page_token =>
       match page_token with
       | None =>
           Ret {| page_files := Some [report];
                  nextPageToken := Some (py "t2") |}
       | Some _ =>
           Ret {| page_files := Some [memo]; nextPageToken := None |}
       end;
     files_get := fun folder =>
       if bool_decide (folder = py "d2") then
         Ret {| folder_name := Some (py "Reports");
                folder_parents := Some [py "d1"] |}
       else if bool_decide (folder = py "d1") then
         Ret {| folder_name := Some (py "My Drive"); folder_parents := None |}
       else Raise boom |}.

End DriveSamples.

Import DriveSamples.

Module RetrySamples.

Definition rate_limit : exn := Exception (py "rate limit").

Definition is_rate_limit (e : exn) : bool :=
  bool_decide (str e = py "rate limit").

(** Two rate limit errors, then an answer. *)
Definition third_time (k : nat) : outcome pystr :=
  match k with
  | 0%nat | 1%nat => Raise rate_limit
  | _ => Ret (py "ok")
  end.

(** Rate limit errors only. *)
Definition always_limited (k : nat) : outcome pystr := Raise rate_limit.

End RetrySamples.

Import RetrySamples.

Module PathSamples.

(** A Drive in which every folder names itself as its parent. *)
Definition looping_drive : drive_service :=
  {| files_list := fun _ _ => Raise boom;
     files_get := fun folder =>
       Ret {| folder_name := Some (py "loop");
              folder_parents := Some [folder] |} |}.

Definition lost : listed_file :=
  {| lf_info := listed "f9" "lost.txt" "text/plain";
     lf_parents := Some [py "d0"] |}.

End PathSamples.

Import PathSamples.

(** * Properties *)

(** ** The built-in operations on examples *)

Example decode_ascii_ex :
  decode_replace (pyb "hello") = py "hello" /\ well_formed (pyb "hello") = true.
Proof. split; reflexivity. Qed.

Example decode_euro_ex :
  decode_replace [xe2; x82; xac] = [8364] /\ well_formed [xe2; x82; xac] = true.
Proof. split; reflexivity. Qed.

Example decode_bad_ex :
  decode_replace [xe2; x82; x41; xff; xf0; x9f; x98; x80; xe0; x80; xf4; x90] = [65533; 65; 65533; 128512; 65533; 65533; 65533; 65533].
Proof. reflexivity. Qed.

Example strip_ex : strip (py "  a b " ++ NL) = py "a b".
Proof. reflexivity. Qed.

Example splitlines_ex :
  splitlines (py "a" ++ [13; 10] ++ py "b" ++ NL ++ NL ++ py "c" ++ NL) = [py "a"; py "b"; []; py "c"].
Proof. reflexivity. Qed.

Example split2_ex : split2 (py "a   b  ") = [py "a"; py " b"; []].
Proof. reflexivity. Qed.

Example splitlines_cr_ex :
  splitlines (py "a" ++ [13; 13; 10] ++ py "b") = [py "a"; []; py "b"]
  /\ splitlines NL = [[]] /\ splitlines [] = [].
Proof. repeat split. Qed.

Example html_text_ex :
  html_text (py " Title  Sub " ++ NL ++ py "   " ++ NL ++ py "body")
  = py "Title" ++ NL ++ py "Sub" ++ NL ++ py "body".
Proof. reflexivity. Qed.

(** The scenario of the specification: a plain-text file whose download is
    "hello", a newline, "world". *)
Example dispatch_plain_text_ex :
  extract_file_content
    (sample_env (Ret (pyb "hello" ++ [x0a] ++ pyb "world"))
       (fun _ => Raise boom) (Raise boom) (Raise boom) (Raise boom)
       (Raise boom) (Ret tt))
    (listed "f1" "notes.txt" "text/plain") w0
  = (Ret (py "hello" ++ NL ++ py "world"),
     World ∅ [GetMedia (Some (py "f1"))]).
Proof. reflexivity. Qed.

(** ** The fetch functions *)

Lemma download_file_run (E : env) (file_id : option pystr) (w : world) :
  download_file E file_id w =
  (Ret (match get_media E file_id with
        | Ret b => Some b
        | Raise _ => None
        end),
   logged (GetMedia file_id) w).
Proof.
  unfold download_file, try_except, bind, send, lift, ret.
  destruct (get_media E file_id); reflexivity.
Qed.

Lemma export_google_doc_run (E : env) (file_id : option pystr)
  (mime_type : pystr) (w : world) :
  export_google_doc E file_id mime_type w =
  (Ret (match export_media E file_id mime_type with
        | Ret b => Some b
        | Raise _ => None
        end),
   logged (ExportMedia file_id mime_type) w).
Proof.
  unfold export_google_doc, try_except, bind, send, lift, ret.
  destruct (export_media E file_id mime_type); reflexivity.
Qed.

(** A block guarded by a handler that returns always returns. *)
Lemma try_except_returns {A} (m : M A) (h : exn -> A) (w : world) :
  exists a w', try_except m (fun e => ret (h e)) w = (Ret a, w').
Proof.
  unfold try_except, ret. destruct (m w) as [[a | e] w']; eauto.
Qed.

(** ** The dispatcher always returns a string *)

Ltac bracket :=
  lazymatch goal with
  | |- bracketed (py ?p ++ ?m ++ py "]") =>
      exists (List.tl (py p) ++ m); reflexivity
  | |- bracketed (py ?p) =>
      exists (removelast (List.tl (py p))); reflexivity
  end.

(** Unfold the monad and split on what each collaborator does. *)
Ltac run :=
  unfold try_except, bind, lift, ret, raise, decode_strict;
  repeat first
    [ rewrite download_file_run
    | rewrite export_google_doc_run
    | progress cbn beta iota
    | match goal with
      | |- context [match ?x with _ => _ end] =>
          lazymatch x with
          | get_media _ _ => destruct x eqn:?
          | export_media _ _ _ => destruct x eqn:?
          | well_formed _ => destruct x eqn:?
          end
      end ].

Ltac conclude :=
  unfold returns_text, fetched;
  do 2 eexists; split; [reflexivity |];
  first [ left; reflexivity
        | right; left; bracket
        | right; right; eauto ].

Lemma extract_google_doc_returns E file_id w :
  returns_text E file_id (extract_google_doc E file_id w).
Proof. unfold extract_google_doc. run; conclude. Qed.

Lemma extract_google_sheet_returns E file_id w :
  returns_text E file_id (extract_google_sheet E file_id w).
Proof. unfold extract_google_sheet. run; conclude. Qed.

Lemma extract_text_file_returns E file_id w :
  returns_text E file_id (extract_text_file E file_id w).
Proof. unfold extract_text_file. run; conclude. Qed.

(** ** The PDF text extractor *)

Lemma pdf_pages_run pages text w :
  pdf_pages pages text w =
  (match page_texts pages with
   | Ret ts => Ret (text ++ pages_terminated ts)
   | Raise e => Raise e
   end, w).
Proof.
  revert text. induction pages as [| [t | e] rest IH]; intros text; cbn.
  - unfold ret. now rewrite app_nil_r.
  - unfold bind, lift. rewrite IH.
    destruct (page_texts rest); [| reflexivity].
    unfold pages_terminated; cbn. now rewrite <- !app_assoc.
  - reflexivity.
Qed.

Lemma extract_text_from_pdf_bytes_run E pdf_bytes w :
  extract_text_from_pdf_bytes E pdf_bytes w =
  (Ret (match PdfReader E pdf_bytes with
        | Ret pages =>
            match page_texts pages with
            | Ret ts => pages_terminated ts
            | Raise e => pdf_failure e
            end
        | Raise e => pdf_failure e
        end), w).
Proof.
  unfold extract_text_from_pdf_bytes, try_except, bind, lift, ret.
  destruct (PdfReader E pdf_bytes) as [pages | e]; [| reflexivity].
  rewrite pdf_pages_run. destruct (page_texts pages); reflexivity.
Qed.

Lemma page_texts_all (texts : list pystr) :
  page_texts (List.map Ret texts) = Ret texts.
Proof. induction texts as [| t ts IH]; cbn; [| rewrite IH]; reflexivity. Qed.

Lemma extract_pdf_returns E file_id w :
  returns_text E file_id (extract_pdf E file_id w).
Proof.
  unfold extract_pdf. run; try rewrite extract_text_from_pdf_bytes_run; conclude.
Qed.

Lemma extract_google_slides_returns E file_id w :
  returns_text E file_id (extract_google_slides E file_id w).
Proof.
  unfold extract_google_slides.
  run; try rewrite extract_text_from_pdf_bytes_run; conclude.
Qed.

(** ** Extractors that go through a temporary file or a parser *)

Ltac guarded_fetch G :=
  unfold try_except at 1, bind at 1; rewrite download_file_run;
  match goal with
  | |- context [get_media ?E ?i] => destruct (get_media E i) eqn:G
  end; cbn beta iota;
  [ match goal with
    | |- returns_text _ _ (match ?r with _ => _ end) =>
        destruct r as [[? | ?] ?]
    end
  | ];
  unfold ret; conclude.

Lemma extract_docx_returns E file_id w :
  returns_text E file_id (extract_docx E file_id w).
Proof.
  unfold extract_docx.
  destruct (DOCX_AVAILABLE E); cbn [negb]; [| unfold ret; conclude].
  guarded_fetch G.
Qed.

Lemma extract_pptx_returns E file_id w :
  returns_text E file_id (extract_pptx E file_id w).
Proof.
  unfold extract_pptx.
  destruct (PPTX_AVAILABLE E); cbn [negb]; [| unfold ret; conclude].
  guarded_fetch G.
Qed.

Lemma extract_html_returns E file_id w :
  returns_text E file_id (extract_html E file_id w).
Proof.
  unfold extract_html.
  destruct (BS4_AVAILABLE E); cbn [negb]; [| unfold ret; conclude].
  guarded_fetch G.
Qed.

Create HintDb returns discriminated.

#[local] Hint Resolve extract_google_doc_returns extract_google_sheet_returns
  extract_google_slides_returns extract_pdf_returns extract_docx_returns
  extract_pptx_returns extract_text_file_returns extract_html_returns
  : returns.

(** The dispatcher, seen as one more extractor. *)
Lemma extract_file_content_returns_text E fi w :
  returns_text E (fi_id fi) (extract_file_content E fi w).
Proof.
  unfold extract_file_content.
  repeat case_bool_decide; auto with returns.
  unfold ret; conclude.
Qed.

(** C1. Whatever the metadata record holds and whatever the Drive client
    and the libraries do, raising included, [extract_file_content]
    returns a string and raises nothing; the string is empty, or a
    bracketed failure string, or text made from a payload that a fetch
    delivered. *)
Theorem extract_file_content_returns (E : env) (fi : file_info) (w : world) :
  exists s w',
    extract_file_content E fi w = (Ret s, w') /\
    (s = [] \/ bracketed s \/ fetched E (fi_id fi)).
Proof.
  change (returns_text E (fi_id fi) (extract_file_content E fi w)).
  unfold extract_file_content.
  repeat case_bool_decide; auto with returns.
  unfold ret; conclude.
Qed.

(** ** Unsupported type tags *)

(** C7. For a record whose type tag is not in the dispatch table the
    dispatcher returns "[Content extraction not supported for file type:
    <tag>]" with the tag in place, and leaves the state as it found it: no
    download and no export is requested from the Drive client, and no
    temporary file is touched. *)
Theorem unsupported_type_no_fetch (E : env) (fi : file_info) (w : world) :
  type_tag fi ∉ dispatch_table ->
  extract_file_content E fi w =
  (Ret (py "[Content extraction not supported for file type: "
          ++ type_tag fi ++ py "]"), w).
Proof.
  intros Hout. unfold extract_file_content. fold (type_tag fi).
  repeat case_bool_decide; try reflexivity;
    exfalso; apply Hout; unfold dispatch_table;
    match goal with H : type_tag fi = _ |- _ => rewrite H end;
    set_solver.
Qed.

Lemma unsupported_type_no_fetch_witness :
  extract_file_content offline
    {| fi_id := Some (py "f7"); fi_name := py "photo.png";
       fi_mimeType := Some (py "image/png") |} w0 =
  (Ret (py "[Content extraction not supported for file type: image/png]"),
   w0).
Proof.
  apply (unsupported_type_no_fetch offline
           {| fi_id := Some (py "f7"); fi_name := py "photo.png";
              fi_mimeType := Some (py "image/png") |} w0).
  compute_done.
Defined.

(** ** A fetch that delivers nothing *)

Lemma fetch_none_download E file_id :
  (forall w, fst (download_file E file_id w) = Ret None) ->
  exists e, get_media E file_id = Raise e.
Proof.
  intros H. specialize (H w0). rewrite download_file_run in H. cbn in H.
  destruct (get_media E file_id); [discriminate H | eauto].
Qed.

Lemma fetch_none_export E file_id mime_type :
  (forall m w, fst (export_google_doc E file_id m w) = Ret None) ->
  exists e, export_media E file_id mime_type = Raise e.
Proof.
  intros H. specialize (H mime_type w0).
  rewrite export_google_doc_run in H. cbn in H.
  destruct (export_media E file_id mime_type); [discriminate H | eauto].
Qed.

(** C6. For every type tag of the dispatch table whose library, if it
    needs one, is installed: when the download and every export of the
    file return [None], the extractor returns the empty string (and not a
    failure string). *)
Theorem missing_payload_is_empty (E : env) (fi : file_info) (w : world) :
  type_tag fi ∈ dispatch_table ->
  library_available E (type_tag fi) = true ->
  (forall w, fst (download_file E (fi_id fi) w) = Ret None) ->
  (forall m w, fst (export_google_doc E (fi_id fi) m w) = Ret None) ->
  fst (extract_file_content E fi w) = Ret [].
Proof.
  intros Hin Hlib Hd He.
  destruct (fetch_none_download _ _ Hd) as [e G].
  destruct (fetch_none_export _ _ (py "text/plain") He) as [e1 X1].
  destruct (fetch_none_export _ _ (py "text/csv") He) as [e2 X2].
  destruct (fetch_none_export _ _ (py "application/pdf") He) as [e3 X3].
  unfold extract_file_content. fold (type_tag fi).
  unfold library_available in Hlib.
  repeat case_bool_decide; try congruence;
    unfold extract_google_doc, extract_google_sheet, extract_google_slides,
      extract_pdf, extract_docx, extract_pptx, extract_text_file,
      extract_html;
    rewrite ?Hlib; cbn [negb];
    unfold try_except, bind;
    rewrite ?download_file_run, ?export_google_doc_run, ?G, ?X1, ?X2;
    cbn beta iota;
    rewrite ?export_google_doc_run, ?X3;
    try reflexivity.
  exfalso. unfold dispatch_table in Hin.
  repeat (apply elem_of_cons in Hin as [Hin | Hin]; [congruence |]).
  now apply elem_of_nil in Hin.
Qed.

Lemma missing_payload_is_empty_witness :
  fst (extract_file_content offline
         {| fi_id := Some (py "f1"); fi_name := py "deck";
            fi_mimeType := Some (py "application/vnd.google-apps.presentation") |}
         w0) = Ret [].
Proof.
  apply (missing_payload_is_empty offline
           {| fi_id := Some (py "f1"); fi_name := py "deck";
              fi_mimeType := Some (py "application/vnd.google-apps.presentation") |}
           w0).
  - compute_done.
  - reflexivity.
  - intros w. reflexivity.
  - intros m w. reflexivity.
Defined.

(** ** The temporary file of the DOCX and PPTX extractors *)

(** Creating the file, writing it and opening it again, when the
    temporary directory works: the parser sees the bytes downloaded. *)
Lemma temp_file_block {A} E (b : list byte) (k : nat -> list byte -> M A) w :
  tempfile_error E = None ->
  write_error E = None ->
  (temp_path <- NamedTemporaryFile E ;;
   write E temp_path b ;;;
   data <- read_file temp_path ;;
   k temp_path data) w =
  k (fresh (dom (tmpfiles w))) b (stored b w).
Proof.
  intros Ht Hw.
  unfold bind, NamedTemporaryFile, write, read_file, stored.
  rewrite Ht, Hw. cbn.
  rewrite insert_insert_eq, lookup_insert_eq. reflexivity.
Qed.

Lemma unlink_stored E (b : list byte) w :
  unlink_error E = None ->
  unlink E (fresh (dom (tmpfiles w))) (stored b w) = (Ret tt, w).
Proof.
  intros Hu. unfold unlink, stored. rewrite Hu. cbn.
  rewrite lookup_insert_eq, delete_insert_eq, delete_id.
  - now destruct w.
  - apply not_elem_of_dom, is_fresh.
Qed.

(** When the parser accepts the document, the file is removed again. *)
Lemma extract_docx_parsed E file_id w b doc :
  DOCX_AVAILABLE E = true -> get_media E file_id = Ret b ->
  tempfile_error E = None -> write_error E = None ->
  unlink_error E = None ->
  docx_Document E b = Ret doc ->
  extract_docx E file_id w =
  (Ret (join NL (docx_paragraphs doc)), logged (GetMedia file_id) w).
Proof.
  intros Ha G Ht Hw Hu Hd. unfold extract_docx. rewrite Ha. cbn [negb].
  unfold try_except at 1, bind at 1.
  rewrite download_file_run, G. cbn beta iota.
  rewrite temp_file_block by assumption.
  unfold bind at 1, lift. rewrite Hd.
  unfold bind at 1, try_except.
  rewrite unlink_stored by assumption. reflexivity.
Qed.

(** When the parser raises, the handler runs with the file still there. *)
Lemma extract_docx_unparsed E file_id w b e :
  DOCX_AVAILABLE E = true -> get_media E file_id = Ret b ->
  tempfile_error E = None -> write_error E = None ->
  docx_Document E b = Raise e ->
  extract_docx E file_id w =
  (Ret (py "[Error extracting DOCX: " ++ str e ++ py "]"),
   stored b (logged (GetMedia file_id) w)).
Proof.
  intros Ha G Ht Hw Hd. unfold extract_docx. rewrite Ha. cbn [negb].
  unfold try_except at 1, bind at 1.
  rewrite download_file_run, G. cbn beta iota.
  rewrite temp_file_block by assumption.
  unfold bind at 1, lift. rewrite Hd. reflexivity.
Qed.

Lemma extract_pptx_parsed E file_id w b slides :
  PPTX_AVAILABLE E = true -> get_media E file_id = Ret b ->
  tempfile_error E = None -> write_error E = None ->
  unlink_error E = None ->
  pptx_Presentation E b = Ret slides ->
  extract_pptx E file_id w =
  (Ret (join (NL ++ NL) (pptx_full_text slides)),
   logged (GetMedia file_id) w).
Proof.
  intros Ha G Ht Hw Hu Hd. unfold extract_pptx. rewrite Ha. cbn [negb].
  unfold try_except at 1, bind at 1.
  rewrite download_file_run, G. cbn beta iota.
  rewrite temp_file_block by assumption.
  unfold bind at 1, lift. rewrite Hd.
  unfold bind at 1, try_except.
  rewrite unlink_stored by assumption. reflexivity.
Qed.

Lemma extract_pptx_unparsed E file_id w b e :
  PPTX_AVAILABLE E = true -> get_media E file_id = Ret b ->
  tempfile_error E = None -> write_error E = None ->
  pptx_Presentation E b = Raise e ->
  extract_pptx E file_id w =
  (Ret (py "[Error extracting PPTX: " ++ str e ++ py "]"),
   stored b (logged (GetMedia file_id) w)).
Proof.
  intros Ha G Ht Hw Hd. unfold extract_pptx. rewrite Ha. cbn [negb].
  unfold try_except at 1, bind at 1.
  rewrite download_file_run, G. cbn beta iota.
  rewrite temp_file_block by assumption.
  unfold bind at 1, lift. rewrite Hd. reflexivity.
Qed.

(** C2. The code at a DOCX and at a PPTX download that the library does
    not accept: the extractor returns its failure string, and the
    temporary file, holding the download, is still in the temporary
    directory; the removal is only reached when parsing succeeds. *)
Theorem temp_file_left_on_parse_error :
  extract_docx corrupt_office (Some (py "f2")) w0 =
    (Ret (py "[Error extracting DOCX: boom]"),
     World {[ 0%nat := not_a_zip ]} [GetMedia (Some (py "f2"))]) /\
  extract_pptx corrupt_office (Some (py "f3")) w0 =
    (Ret (py "[Error extracting PPTX: boom]"),
     World {[ 0%nat := not_a_zip ]} [GetMedia (Some (py "f3"))]).
Proof.
  split.
  - now rewrite (extract_docx_unparsed corrupt_office _ w0 not_a_zip boom).
  - now rewrite (extract_pptx_unparsed corrupt_office _ w0 not_a_zip boom).
Qed.

(** ** Google Slides: when the PDF export is tried *)





(** ** PDF text: what the pages contribute *)

(** C4, as stated, fails: for a document of two pages the extractor does
    not return the two texts separated by a blank line; a blank line
    follows the last page as well. *)
Lemma pdf_pages_not_only_separated :
  pdf_document two_pages (pyb "%PDF-1.4") = Ret [py "a"; py "b"] /\
  fst (extract_text_from_pdf_bytes two_pages (pyb "%PDF-1.4") w0)
    = Ret (py "a" ++ NL ++ NL ++ py "b" ++ NL ++ NL) /\
  fst (extract_text_from_pdf_bytes two_pages (pyb "%PDF-1.4") w0)
    <> Ret (join (NL ++ NL) [py "a"; py "b"]).
Proof. repeat split. discriminate. Qed.

(** C4, amended. For a byte stream the reader parses, the extractor
    returns each page's text followed by a blank line, the last page
    included; a page without text contributes the blank line alone.  For
    a byte stream the reader, or a page of it, rejects, it returns a
    string that starts with "[Error extracting" and contains "PDF". *)
Theorem pdf_text_pages_terminated (E : env) (pdf_bytes : list byte)
  (w : world) :
  exists s,
    extract_text_from_pdf_bytes E pdf_bytes w = (Ret s, w) /\
    (forall texts, pdf_document E pdf_bytes = Ret texts ->
       s = flat_map (fun t => t ++ NL ++ NL) texts) /\
    (forall e, pdf_document E pdf_bytes = Raise e ->
       starts_with (py "[Error extracting") s = true /\
       contains (py "PDF") s = true).
Proof.
  rewrite extract_text_from_pdf_bytes_run. eexists. split; [reflexivity |].
  unfold pdf_document.
  destruct (PdfReader E pdf_bytes) as [pages | e0].
  - destruct (page_texts pages) as [ts | e0]; split.
    + intros texts [= <-]. reflexivity.
    + intros e [=].
    + intros texts [=].
    + intros e _. split; reflexivity.
  - split.
    + intros texts [=].
    + intros e _. split; reflexivity.
Qed.

Lemma pdf_text_pages_terminated_witness :
  extract_text_from_pdf_bytes two_pages (pyb "%PDF-1.4") w0
    = (Ret (py "a" ++ NL ++ NL ++ py "b" ++ NL ++ NL), w0) /\
  (exists s, extract_text_from_pdf_bytes offline (pyb "junk") w0 = (Ret s, w0)
     /\ starts_with (py "[Error extracting") s = true
     /\ contains (py "PDF") s = true).
Proof.
  split.
  - destruct (pdf_text_pages_terminated two_pages (pyb "%PDF-1.4") w0)
      as (s & Hrun & Hok & _).
    rewrite Hrun, (Hok [py "a"; py "b"]); reflexivity.
  - destruct (pdf_text_pages_terminated offline (pyb "junk") w0)
      as (s & Hrun & _ & Hbad).
    exists s. split; [exact Hrun | apply (Hbad boom); reflexivity].
Defined.

(** ** PPTX: which slides make a segment *)

Lemma pptx_slide_text_shapes shapes :
  pptx_slide_text shapes = shape_texts shapes.
Proof.
  unfold pptx_slide_text, shape_texts.
  enough (forall acc,
    fold_left
      (fun slide_text shape =>
         match shape with
         | Some text => slide_text ++ [text]
         | None => slide_text
         end) shapes acc = acc ++ omap (fun shape => shape) shapes)
    as H by apply (H []).
  induction shapes as [| [t |] rest IH]; intros acc; cbn.
  - now rewrite app_nil_r.
  - rewrite IH, <- app_assoc. reflexivity.
  - apply IH.
Qed.

Lemma pptx_full_text_segments slides :
  pptx_full_text slides = slide_segments slides.
Proof.
  unfold pptx_full_text, slide_segments.
  enough (forall acc,
    fold_left
      (fun full_text slide =>
         match pptx_slide_text slide with
         | [] => full_text
         | slide_text => full_text ++ [join NL slide_text]
         end) slides acc =
    acc ++ List.map (join NL)
             (List.filter (fun texts => negb (bool_decide (texts = [])))
                (List.map shape_texts slides)))
    as H by apply (H []).
  induction slides as [| slide rest IH]; intros acc; cbn [fold_left List.map List.filter].
  - now rewrite app_nil_r.
  - rewrite IH, pptx_slide_text_shapes.
    destruct (shape_texts slide) as [| t ts]; cbn.
    + reflexivity.
    + now rewrite <- app_assoc.
Qed.

(** The text the extractor returns for a download the library parses,
    whether or not the removal of the temporary file succeeds. *)
Lemma extract_pptx_text E file_id w b slides :
  PPTX_AVAILABLE E = true -> get_media E file_id = Ret b ->
  tempfile_error E = None -> write_error E = None ->
  pptx_Presentation E b = Ret slides ->
  fst (extract_pptx E file_id w) = Ret (join (NL ++ NL) (pptx_full_text slides)).
Proof.
  intros Ha G Ht Hw Hd. unfold extract_pptx. rewrite Ha. cbn [negb].
  unfold try_except at 1, bind at 1.
  rewrite download_file_run, G. cbn beta iota.
  rewrite temp_file_block by assumption.
  unfold bind at 1, lift. rewrite Hd.
  unfold bind at 1, try_except, unlink, ret.
  destruct (unlink_error E); [reflexivity |].
  destruct (tmpfiles _ !! _); reflexivity.
Qed.

(** C8, as stated, fails.  Three slides, the second without a shape that
    exposes text: the output has two segments, but the first is empty, so
    not two non-empty ones.  And a slide whose only text box is empty
    contributes no text, yet it is not left out: it is an empty segment
    between the two others. *)
Lemma pptx_empty_text_box_segments :
  pptx_full_text deck_empty_first = [ []; py "c" ] /\
  fst (extract_pptx (pptx_of deck_empty_first) (Some (py "p1")) w0)
    = Ret (NL ++ NL ++ py "c") /\
  pptx_full_text deck_empty_second = [ py "a"; []; py "c" ] /\
  fst (extract_pptx (pptx_of deck_empty_second) (Some (py "p1")) w0)
    = Ret (py "a" ++ NL ++ NL ++ NL ++ NL ++ py "c").
Proof. repeat split. Qed.

(** C8, amended. For a download the library parses, the extractor joins,
    per slide, the texts of the shapes that expose text with newlines,
    and joins with a blank line the slides that have such a shape; a
    slide with no shape exposing text is left out.  For three slides of
    which the second has no such shape and the two others have one, that
    is exactly two segments, those of the first and the third slide. *)
Theorem pptx_slides_without_text_shapes_omitted (E : env)
  (file_id : option pystr) (w : world) (b : list byte)
  (slides : list (list (option pystr))) :
  PPTX_AVAILABLE E = true -> get_media E file_id = Ret b ->
  tempfile_error E = None -> write_error E = None ->
  pptx_Presentation E b = Ret slides ->
  fst (extract_pptx E file_id w) = Ret (join (NL ++ NL) (slide_segments slides)) /\
  (forall s1 s2 s3, slides = [s1; s2; s3] ->
     shape_texts s1 <> [] -> shape_texts s2 = [] -> shape_texts s3 <> [] ->
     slide_segments slides =
       [join NL (shape_texts s1); join NL (shape_texts s3)]).
Proof.
  intros Ha G Ht Hw Hd. split.
  - rewrite <- pptx_full_text_segments.
    now apply extract_pptx_text with (b := b).
  - intros s1 s2 s3 -> H1 H2 H3. unfold slide_segments. cbn.
    rewrite H2. cbn.
    repeat case_bool_decide; try contradiction. reflexivity.
Qed.

Lemma pptx_slides_without_text_shapes_omitted_witness :
  fst (extract_pptx (pptx_of deck_picture_second) (Some (py "p1")) w0)
    = Ret (py "Title" ++ NL ++ py "Sub" ++ NL ++ NL ++ py "End") /\
  slide_segments deck_picture_second
    = [py "Title" ++ NL ++ py "Sub"; py "End"].
Proof.
  destruct (pptx_slides_without_text_shapes_omitted
              (pptx_of deck_picture_second) (Some (py "p1")) w0 (pyb "PK")
              deck_picture_second)
    as [Hout Hseg]; try reflexivity.
  split.
  - exact Hout.
  - apply (Hseg _ _ _ eq_refl); [discriminate | reflexivity | discriminate].
Defined.

(** ** Strict and permissive decoding *)

Lemma decode_replace_marks (b : list byte) :
  well_formed b = false -> 65533 ∈ decode_replace b.
Proof.
  unfold well_formed, decode_replace.
  induction (scan None b) as [| [cp |] items IH]; cbn; intros H.
  - discriminate H.
  - right. now apply IH.
  - left.
Qed.

Lemma extract_html_run E file_id w :
  BS4_AVAILABLE E = true ->
  extract_html E file_id w =
  (Ret (match get_media E file_id with
        | Ret b => html_of E (decode_replace b)
        | Raise _ => []
        end), logged (GetMedia file_id) w).
Proof.
  intros Ha. unfold extract_html, html_of. rewrite Ha. cbn [negb].
  unfold try_except, bind. rewrite download_file_run.
  destruct (get_media E file_id) as [b | e]; cbn beta iota.
  - unfold lift, ret. destruct (BeautifulSoup E (decode_replace b)); reflexivity.
  - reflexivity.
Qed.

(** ** UTF-8: the decoder against the encoder *)

(** Linear arithmetic with quotients and remainders. *)
Ltac dlia := zify; Z.to_euclidean_division_equations; lia.

Lemma to_N_byte_of_N n : n < 256 -> Byte.to_N (byte_of_N n) = n.
Proof.
  intros H. unfold byte_of_N.
  destruct (Byte.of_N n) as [b |] eqn:Hb.
  - now apply Byte.to_of_N.
  - apply Byte.of_N_None_iff in Hb. lia.
Qed.

Lemma byte_of_N_to_N b : byte_of_N (Byte.to_N b) = b.
Proof. unfold byte_of_N. now rewrite Byte.of_to_N. Qed.

(** *** The decoder, one byte at a time *)

Lemma scan_None_cons b bs :
  scan None (b :: bs) =
  match start_byte (Byte.to_N b) with
  | Scalar cp => Some cp :: scan None bs
  | Begin p => scan (Some p) bs
  | Invalid => None :: scan None bs
  end.
Proof. cbn [scan]. now destruct (start_byte (Byte.to_N b)). Qed.

Lemma scan_Some_cons p b bs :
  scan (Some p) (b :: bs) =
  if (lo p <=? Byte.to_N b) && (Byte.to_N b <=? hi p) then
    let a := acc p * 64 + (Byte.to_N b - 128) in
    match more p with
    | 1%nat | 0%nat => Some a :: scan None bs
    | S k => scan (Some {| acc := a; more := k; lo := 128; hi := 191 |}) bs
    end
  else None :: scan None (b :: bs).
Proof.
  rewrite scan_None_cons. cbn [scan].
  destruct ((lo p <=? Byte.to_N b) && (Byte.to_N b <=? hi p)); [reflexivity |].
  now destruct (start_byte (Byte.to_N b)).
Qed.

(** Decides the comparisons of the goal, one after the other. *)
Ltac compare_all :=
  repeat match goal with
    | |- context [?a =? ?b] =>
        destruct (N.eqb_spec a b); try (exfalso; dlia)
    | |- context [?a <? ?b] =>
        destruct (N.ltb_spec a b); try (exfalso; dlia)
    | |- context [?a <=? ?b] =>
        destruct (N.leb_spec a b); try (exfalso; dlia)
    end.

Lemma scan_encode c bs :
  scalar c = true -> scan None (utf8_encode c ++ bs) = Some c :: scan None bs.
Proof.
  unfold scalar, utf8_encode. intros Hc.
  apply orb_true_iff in Hc.
  rewrite andb_true_iff, N.leb_le, !N.ltb_lt in Hc.
  destruct (N.ltb_spec c 128); [| destruct (N.ltb_spec c 2048);
    [| destruct (N.ltb_spec c 65536)]]; cbn [app].
  - rewrite scan_None_cons, to_N_byte_of_N by dlia.
    unfold start_byte. compare_all. reflexivity.
  - rewrite scan_None_cons, to_N_byte_of_N by dlia.
    unfold start_byte. compare_all.
    rewrite scan_Some_cons, to_N_byte_of_N by dlia. cbn [lo hi acc more].
    compare_all. cbn [andb]. cbv zeta. do 2 f_equal. dlia.
  - rewrite scan_None_cons, to_N_byte_of_N by dlia.
    unfold start_byte. compare_all;
      rewrite scan_Some_cons, to_N_byte_of_N by dlia; cbn [lo hi acc more];
      compare_all; cbn [andb]; cbv zeta;
      rewrite scan_Some_cons, to_N_byte_of_N by dlia; cbn [lo hi acc more];
      compare_all; cbn [andb]; cbv zeta; do 2 f_equal; dlia.
  - rewrite scan_None_cons, to_N_byte_of_N by dlia.
    unfold start_byte. compare_all;
      rewrite scan_Some_cons, to_N_byte_of_N by dlia; cbn [lo hi acc more];
      compare_all; cbn [andb]; cbv zeta;
      rewrite scan_Some_cons, to_N_byte_of_N by dlia; cbn [lo hi acc more];
      compare_all; cbn [andb]; cbv zeta;
      rewrite scan_Some_cons, to_N_byte_of_N by dlia; cbn [lo hi acc more];
      compare_all; cbn [andb]; cbv zeta; do 2 f_equal; dlia.
Qed.

(** A byte is below 256. *)
Lemma to_N_below b : Byte.to_N b < 256.
Proof. pose proof (Byte.to_N_bounded b). lia. Qed.

(** Two bytes with the same number are the same byte. *)
Lemma byte_eq b n : Byte.to_N b = n -> byte_of_N n = b.
Proof. intros <-. apply byte_of_N_to_N. Qed.

(** Reads the bytes that continue the sequence in progress. *)
Ltac read_on :=
  repeat match goal with
    | |- scan (Some _) ?b = _ -> _ =>
        let y := fresh "y" in
        let b' := fresh "b" in
        destruct b as [| y b']; [discriminate |];
        pose proof (to_N_below y);
        rewrite scan_Some_cons; cbn [lo hi acc more];
        compare_all; cbn [andb]; cbv zeta
    end.

(** What the decoder reads as a character is the encoding of that
    character, and the character is a scalar value. *)
Lemma scan_first b c items :
  scan None b = Some c :: items ->
  exists bs,
    b = utf8_encode c ++ bs /\ scalar c = true /\ items = scan None bs.
Proof.
  destruct b as [| x b]; [discriminate |].
  pose proof (to_N_below x) as Hx.
  rewrite scan_None_cons. unfold start_byte.
  compare_all; read_on; try discriminate;
    intros [= <- <-]; eexists; unfold scalar, utf8_encode;
    compare_all; cbn [orb andb app];
    (split; [| split; reflexivity]);
    repeat f_equal; symmetry; apply byte_eq; dlia.
Qed.

Lemma scan_utf8 text bs :
  Forall (fun c => scalar c = true) text ->
  scan None (utf8 text ++ bs) = List.map Some text ++ scan None bs.
Proof.
  induction 1 as [| c text Hc _ IH]; [reflexivity |].
  cbn [utf8 flat_map List.map app]. rewrite <- app_assoc.
  rewrite scan_encode by exact Hc. fold (utf8 text). now rewrite IH.
Qed.

Lemma scan_Some_nonempty bs : forall p, scan (Some p) bs <> [].
Proof.
  induction bs as [| b bs IH]; intros p; [discriminate |].
  rewrite scan_Some_cons.
  destruct ((lo p <=? Byte.to_N b) && (Byte.to_N b <=? hi p));
    [| discriminate].
  cbv zeta. destruct (more p) as [| [| k]]; try discriminate. apply IH.
Qed.

Lemma scan_nil b : scan None b = [] -> b = [].
Proof.
  destruct b as [| x b]; [reflexivity |].
  rewrite scan_None_cons.
  destruct (start_byte (Byte.to_N x)); try discriminate.
  intros H. now apply scan_Some_nonempty in H.
Qed.

Lemma utf8_encode_nonempty c : utf8_encode c <> [].
Proof.
  unfold utf8_encode.
  destruct (c <? 128); [discriminate |].
  destruct (c <? 2048); [discriminate |].
  destruct (c <? 65536); discriminate.
Qed.

(** The strict decoder accepts the encodings of texts and nothing else,
    and reads an encoding back as the text. *)
Lemma well_formed_valid b : well_formed b = true <-> valid_utf8 b.
Proof.
  split.
  - remember (List.length b) as m eqn:Hm.
    revert b Hm. induction m as [m IH] using lt_wf_ind. intros b Hm.
    unfold well_formed.
    destruct (scan None b) as [| [c |] items] eqn:Hs; cbn; intros Hw.
    + apply scan_nil in Hs as ->. exists []. split; [constructor | reflexivity].
    + apply scan_first in Hs as (bs & -> & Hc & ->).
      destruct (IH (List.length bs)) with (b := bs) as (text & Ht & ->);
        [| reflexivity | exact Hw |].
      * subst m. rewrite length_app.
        pose proof (utf8_encode_nonempty c).
        destruct (utf8_encode c); [congruence | cbn; lia].
      * exists (c :: text). split; [now constructor | reflexivity].
    + discriminate.
  - intros (text & Ht & ->). unfold well_formed.
    rewrite <- (app_nil_r (utf8 text)), scan_utf8 by exact Ht.
    cbn [scan]. rewrite app_nil_r. clear Ht.
    induction text; [reflexivity | cbn; assumption].
Qed.

Lemma code_points_utf8 text :
  Forall (fun c => scalar c = true) text -> code_points (utf8 text) = text.
Proof.
  intros Ht. unfold code_points.
  rewrite <- (app_nil_r (utf8 text)), scan_utf8 by exact Ht.
  cbn [scan]. rewrite app_nil_r.
  induction text as [| c text IH]; [reflexivity |].
  cbn. f_equal. apply IH. now inversion Ht.
Qed.

(** *** Where the decoder gives up *)

Lemma cut_short_intro p rest :
  rest <> [] ->
  (exists c, scan None (p ++ rest) = [Some c]) ->
  cut_short p.
Proof.
  intros Hr [c Hs].
  apply scan_first in Hs as (bs & He & Hc & Hn).
  symmetry in Hn. apply scan_nil in Hn as ->. rewrite app_nil_r in He.
  exists c, rest. auto.
Qed.

Lemma starts_char_scan p :
  starts_char p -> exists c rest, scan None (p ++ rest) = [Some c].
Proof.
  intros (c & rest & Hc & He). exists c, rest.
  rewrite <- He, <- (app_nil_r (utf8_encode c)).
  now rewrite scan_encode.
Qed.

(** Runs the decoder on the bytes at the head of the goal. *)
Ltac decode :=
  rewrite scan_None_cons; unfold start_byte; compare_all;
  repeat (rewrite scan_Some_cons; cbn [lo hi acc more Byte.to_N];
          compare_all; cbn [andb]; cbv zeta).

(** The bytes read so far can be completed to a character. *)
Ltac pad rest :=
  solve [ apply (cut_short_intro _ rest);
          [ discriminate
          | cbn [app]; decode; cbn [scan]; eexists; reflexivity ] ].

Ltac pads :=
  first [ pad [x80] | pad [x80; x80] | pad [xa0; x80]
        | pad [x80; x80; x80] | pad [x90; x80; x80] ].

(** No character starts with the bytes at hand. *)
Ltac not_start :=
  let H := fresh in
  intros H; apply starts_char_scan in H as (? & ? & H);
  cbn [app] in H; revert H; decode; discriminate.

Ltac leaf p bs :=
  let H := fresh in
  intros H; injection H as <-; exists p, bs;
  (split; [reflexivity |]); (split; [reflexivity |]); left;
  (split; [discriminate |]); split;
  [ pads
  | let y := fresh in let bs' := fresh in let E := fresh in
    intros y bs' E; first [ discriminate E | injection E as <- <-; not_start ] ].

Ltac descend p :=
  lazymatch goal with
  | |- scan (Some _) ?b = None :: _ -> _ =>
      let y := fresh "y" in
      let b' := fresh "b" in
      destruct b as [| y b'];
      [ cbn [scan]; leaf p (@nil byte)
      | pose proof (to_N_below y);
        rewrite scan_Some_cons; cbn [lo hi acc more];
        compare_all; cbn [andb]; cbv zeta;
        lazymatch goal with
        | |- Some _ :: _ = None :: _ -> _ => discriminate
        | |- None :: scan None ?bs = None :: _ -> _ => leaf p bs
        | |- scan (Some _) _ = None :: _ -> _ =>
            let p' := eval cbn [app] in (p ++ [y]) in descend p'
        end ]
  end.

(** Where the decoder gives up, it has read the start of a character cut
    short, as long as it can be, or a byte that no character starts
    with; it goes on after that. *)
Lemma scan_bad b items :
  scan None b = None :: items ->
  exists p bs,
    b = p ++ bs /\ items = scan None bs /\
    ((p <> [] /\ cut_short p /\
      forall y bs', bs = y :: bs' -> ~ starts_char (p ++ [y])) \/
     exists x, p = [x] /\ ~ starts_char [x]).
Proof.
  destruct b as [| x b]; [discriminate |].
  pose proof (to_N_below x) as Hx.
  rewrite scan_None_cons. unfold start_byte.
  compare_all;
    lazymatch goal with
    | |- Some _ :: _ = None :: _ -> _ => discriminate
    | |- None :: scan None _ = None :: _ -> _ =>
        intros [= <-]; exists [x], b;
        (split; [reflexivity |]); (split; [reflexivity |]); right;
        exists x; (split; [reflexivity |]); not_start
    | |- _ => descend [x]
    end.
Qed.

(** *** Decoding with replacement *)

Lemma decode_replace_scan (b : list byte) :
  decode_replace b = List.map (default 65533) (scan None b).
Proof. unfold decode_replace. apply map_ext. now intros []. Qed.

(** The permissive decoder replaces as the standard recommends. *)
Lemma decode_replace_replaced b : replaced b (decode_replace b).
Proof.
  remember (List.length b) as m eqn:Hm.
  revert b Hm. induction m as [m IH] using lt_wf_ind. intros b Hm.
  rewrite decode_replace_scan.
  destruct (scan None b) as [| [c |] items] eqn:Hs.
  - apply scan_nil in Hs as ->. constructor.
  - apply scan_first in Hs as (bs & -> & Hc & ->).
    cbn [List.map default]. rewrite <- decode_replace_scan.
    apply replaced_char; [exact Hc |].
    apply (IH (List.length bs)); [| reflexivity].
    subst m. rewrite length_app.
    pose proof (utf8_encode_nonempty c).
    destruct (utf8_encode c); [congruence | cbn; lia].
  - apply scan_bad in Hs as (p & bs & -> & -> & Hp).
    cbn [List.map default]. rewrite <- decode_replace_scan.
    assert (Hbs : replaced bs (decode_replace bs)).
    { apply (IH (List.length bs)); [| reflexivity].
      subst m. rewrite length_app.
      destruct Hp as [(Hp & _) | (x & -> & _)].
      - destruct p; [congruence | cbn; lia].
      - cbn. lia. }
    destruct Hp as [(Hp & Hcut & Hmax) | (x & -> & Hx)].
    + now apply replaced_cut.
    + now apply replaced_byte.
Qed.

(** No encoding is the start of another. *)
Lemma utf8_encode_prefix_free c c' r :
  scalar c = true -> scalar c' = true ->
  utf8_encode c = utf8_encode c' ++ r -> r = [].
Proof.
  intros Hc Hc' He.
  pose proof (scan_encode c [] Hc) as H.
  rewrite app_nil_r, He, scan_encode in H by exact Hc'.
  injection H as _ H. now apply scan_nil.
Qed.

Lemma starts_char_prefix p k : starts_char (p ++ k) -> starts_char p.
Proof.
  intros (c & rest & Hc & He). exists c, (k ++ rest).
  now rewrite app_assoc.
Qed.

Lemma cut_short_starts p : cut_short p -> starts_char p.
Proof. intros (c & rest & Hc & _ & He). now exists c, rest. Qed.

(** Two ways of cutting the same bytes in two. *)
Lemma app_eq_cases {A} (p bs p2 bs2 : list A) :
  p ++ bs = p2 ++ bs2 ->
  (p = p2 /\ bs = bs2) \/
  (exists y k, p2 = p ++ y :: k /\ bs = y :: k ++ bs2) \/
  (exists y k, p = p2 ++ y :: k /\ bs2 = y :: k ++ bs).
Proof.
  intros H. apply app_eq_inv in H as [(k & -> & ->) | (k & -> & ->)].
  - destruct k as [| y k]; [left; now rewrite app_nil_r | right; right; eauto].
  - destruct k as [| y k]; [left; now rewrite app_nil_r | right; left; eauto].
Qed.

(** What the decoder does where the bytes are as in the last two cases
    of [replaced]. *)
Lemma scan_cut p bs :
  p <> [] -> cut_short p ->
  (forall y bs', bs = y :: bs' -> ~ starts_char (p ++ [y])) ->
  scan None (p ++ bs) = None :: scan None bs.
Proof.
  intros Hp Hcut Hmax.
  pose proof (cut_short_starts p Hcut) as Hstart.
  destruct Hcut as (c & rest & Hc & Hrest & He).
  destruct (scan None (p ++ bs)) as [| [c' |] items] eqn:Hs.
  - apply scan_nil in Hs. destruct p; [congruence | discriminate].
  - exfalso. apply scan_first in Hs as (bs2 & Hb & Hc' & _).
    apply app_eq_cases in Hb
      as [[-> _] | [(y & k & Hk & Hbs) | (y & k & -> & _)]].
    + apply utf8_encode_prefix_free in He; auto.
    + apply (Hmax y (k ++ bs2) Hbs). exists c', k.
      now rewrite <- app_assoc.
    + rewrite <- app_assoc in He.
      apply utf8_encode_prefix_free in He; auto. discriminate.
  - apply scan_bad in Hs as (p2 & bs2 & Hb & -> & Hp2). f_equal.
    destruct Hp2 as [(Hp2 & Hcut2 & Hmax2) | (x & -> & Hx)].
    + apply app_eq_cases in Hb
        as [[_ ->] | [(y & k & -> & Hbs) | (y & k & -> & Hbs)]].
      * reflexivity.
      * exfalso. apply (Hmax y (k ++ bs2) Hbs).
        apply cut_short_starts in Hcut2.
        apply (starts_char_prefix _ k). now rewrite <- app_assoc.
      * exfalso. apply (Hmax2 y (k ++ bs) Hbs).
        apply (starts_char_prefix _ k). now rewrite <- app_assoc.
    + exfalso. apply Hx. destruct p as [| x' p]; [congruence |].
      injection Hb as -> _.
      apply (starts_char_prefix [x] p), Hstart.
Qed.

Lemma scan_byte x bs :
  ~ starts_char [x] -> scan None (x :: bs) = None :: scan None bs.
Proof.
  intros Hx.
  destruct (scan None (x :: bs)) as [| [c' |] items] eqn:Hs.
  - apply scan_nil in Hs. discriminate.
  - exfalso. apply Hx. apply scan_first in Hs as (bs2 & Hb & Hc' & _).
    pose proof (utf8_encode_nonempty c') as Hn.
    destruct (utf8_encode c') as [| x' e] eqn:He; [congruence |].
    injection Hb as -> _. now exists c', e.
  - apply scan_bad in Hs as (p2 & bs2 & Hb & -> & Hp2). f_equal.
    destruct Hp2 as [(Hp2 & Hcut2 & _) | (x2 & -> & _)].
    + exfalso. apply Hx. destruct p2 as [| x' p2]; [congruence |].
      injection Hb as -> _.
      apply (starts_char_prefix [x'] p2), cut_short_starts, Hcut2.
    + now injection Hb as _ ->.
Qed.

(** There is one way to replace, and the permissive decoder's is it. *)
Lemma replaced_decode_replace b text :
  replaced b text <-> text = decode_replace b.
Proof.
  split; [| intros ->; apply decode_replace_replaced].
  induction 1 as [| c bs text Hc _ IH | p bs text Hp Hcut Hmax _ IH
                 | x bs text Hx _ IH];
    rewrite decode_replace_scan.
  - reflexivity.
  - rewrite scan_encode by exact Hc. cbn [List.map default].
    now rewrite <- decode_replace_scan, IH.
  - rewrite scan_cut by assumption. cbn [List.map default].
    now rewrite <- decode_replace_scan, IH.
  - rewrite scan_byte by assumption. cbn [List.map default].
    now rewrite <- decode_replace_scan, IH.
Qed.

(** *** What the extractors do with the bytes *)

(** C10. When the bytes an export delivers are not valid UTF-8, that
    is, not the encoding of any text, the Google Docs, Sheets and Slides
    extractors return their bracketed failure string, made from the
    decoder's error, and no text.  When a download delivers the bytes,
    the plain-text extractor returns the one text that decoding with
    replacement gives: the characters that are encoded, and U+FFFD for
    what is not an encoding; the HTML extractor parses that same text.
    Neither fails on decoding. *)
Theorem exports_decoded_strictly (E : env) (file_id : option pystr)
  (w : world) (b : list byte) :
  (~ valid_utf8 b ->
   (export_media E file_id (py "text/plain") = Ret b ->
    fst (extract_google_doc E file_id w)
      = Ret (py "[Error extracting Google Doc: " ++ decode_error E b
               ++ py "]") /\
    fst (extract_google_slides E file_id w)
      = Ret (py "[Error extracting Google Slides: " ++ decode_error E b
               ++ py "]")) /\
   (export_media E file_id (py "text/csv") = Ret b ->
    fst (extract_google_sheet E file_id w)
      = Ret (py "[Error extracting Google Sheet: " ++ decode_error E b
               ++ py "]"))) /\
  (get_media E file_id = Ret b ->
   exists text,
     replaced b text /\
     (forall text', replaced b text' -> text' = text) /\
     (~ valid_utf8 b -> 65533 ∈ text) /\
     fst (extract_text_file E file_id w) = Ret text /\
     (BS4_AVAILABLE E = true ->
      fst (extract_html E file_id w) = Ret (html_of E text))).
Proof.
  assert (Hill : ~ valid_utf8 b -> well_formed b = false).
  { intros Hb. destruct (well_formed b) eqn:Hw; [| reflexivity].
    now apply well_formed_valid in Hw. }
  split.
  - intros Hb. apply Hill in Hb. split.
    + intros X.
      unfold extract_google_doc, extract_google_slides, try_except, bind,
        decode_strict, raise, ret.
      rewrite !export_google_doc_run, X, Hb. split; reflexivity.
    + intros X.
      unfold extract_google_sheet, try_except, bind, decode_strict, raise,
        ret.
      rewrite !export_google_doc_run, X, Hb. reflexivity.
  - intros G. exists (decode_replace b).
    split; [| split; [| split; [| split]]].
    + apply decode_replace_replaced.
    + intros text' H. now apply replaced_decode_replace.
    + intros Hb. now apply decode_replace_marks, Hill.
    + unfold extract_text_file, try_except, bind, ret.
      rewrite download_file_run, G. reflexivity.
    + intros Ha. rewrite extract_html_run by assumption.
      rewrite G. reflexivity.
Qed.

Lemma exports_decoded_strictly_witness :
  fst (extract_google_doc ill_formed_doc (Some (py "d1")) w0)
    = Ret (py "[Error extracting Google Doc: invalid utf-8]") /\
  fst (extract_text_file ill_formed_text (Some (py "t1")) w0)
    = Ret [97; 65533; 65533; 98].
Proof.
  split.
  - destruct (exports_decoded_strictly ill_formed_doc (Some (py "d1")) w0
                [xff]) as [Hexport _].
    destruct Hexport as [Hdoc _].
    + intros H. apply well_formed_valid in H. discriminate H.
    + apply Hdoc. reflexivity.
  - destruct (exports_decoded_strictly ill_formed_text (Some (py "t1")) w0
                [x61; xff; xe2; x82; x62]) as [_ Hdownload].
    destruct Hdownload as (text & Hrep & _ & _ & Htext & _); [reflexivity |].
    apply replaced_decode_replace in Hrep. rewrite Htext, Hrep.
    reflexivity.
Defined.

(** ** Substrings *)

Section Occurs.

Implicit Types n s a b c : pystr.

Lemma starts_with_prefix n s :
  starts_with n s = true <-> exists r, s = n ++ r.
Proof.
  revert s. induction n as [| x n IH]; intros s; cbn.
  - split; eauto.
  - destruct s as [| y s].
    + split; [discriminate | intros [r [=]]].
    + rewrite andb_true_iff, N.eqb_eq, IH. split.
      * intros [-> [r ->]]. eauto.
      * intros [r [= -> ->]]. eauto.
Qed.

Lemma contains_occurs n s : contains n s = true <-> occurs n s.
Proof.
  unfold occurs. induction s as [| y s IH]; cbn.
  - rewrite orb_false_r, starts_with_prefix. split.
    + intros [r H]. exists [], r. exact H.
    + intros (l & r & H). symmetry in H.
      apply app_eq_nil in H as [-> H]. apply app_eq_nil in H as [-> ->].
      exists []. reflexivity.
  - rewrite orb_true_iff, starts_with_prefix, IH. split.
    + intros [[r H] | (l & r & H)].
      * exists [], r. exact H.
      * exists (y :: l), r. cbn. now rewrite H.
    + intros ([| z l] & r & H).
      * left. exists r. exact H.
      * right. injection H as -> H. eauto.
Qed.

Lemma occurs_refl s : occurs s s.
Proof. exists [], []. now rewrite app_nil_r. Qed.

Lemma occurs_trans a b c : occurs a b -> occurs b c -> occurs a c.
Proof.
  intros (l1 & r1 & ->) (l2 & r2 & ->).
  exists (l2 ++ l1), (r1 ++ r2). now rewrite <- !app_assoc.
Qed.

Lemma occurs_app_l n a b : occurs n a -> occurs n (a ++ b).
Proof.
  intros (l & r & ->). exists l, (r ++ b). now rewrite <- !app_assoc.
Qed.

Lemma occurs_app_r n a b : occurs n b -> occurs n (a ++ b).
Proof.
  intros (l & r & ->). exists (a ++ l), r. now rewrite <- !app_assoc.
Qed.

Lemma occurs_left a b : occurs a (a ++ b).
Proof. apply occurs_app_l, occurs_refl. Qed.

Lemma occurs_right a b : occurs b (a ++ b).
Proof. apply occurs_app_r, occurs_refl. Qed.

Lemma occurs_nil s : occurs [] s.
Proof. exists [], s. reflexivity. Qed.

(** A needle without the separating character lies on one side of it. *)
Lemma occurs_separated n a b (x : N) :
  x ∉ n -> occurs n (a ++ x :: b) -> occurs n a \/ occurs n b.
Proof.
  intros Hx (l & r & H).
  apply app_eq_inv in H as [(k & -> & H) | (k & -> & H)].
  - left. symmetry in H.
    apply app_eq_inv in H as [(k' & -> & H) | (k' & -> & H)].
    + exists l, k'. reflexivity.
    + destruct k' as [| y k'].
      * rewrite app_nil_r. apply occurs_right.
      * injection H as -> H. exfalso. apply Hx.
        apply elem_of_app. right. left.
  - destruct k as [| y k].
    + destruct n as [| y n]; [left; apply occurs_nil |].
      injection H as -> H. exfalso. apply Hx. left.
    + injection H as -> H. right. exists k, r. exact H.
Qed.

Lemma occurs_join n (parts : list pystr) :
  10 ∉ n -> n <> [] -> occurs n (join NL parts) ->
  exists p, p ∈ parts /\ occurs n p.
Proof.
  intros Hx Hn. induction parts as [| p ps IH]; cbn.
  - intros (l & r & H). symmetry in H.
    apply app_eq_nil in H as [_ H]. apply app_eq_nil in H as [H _].
    contradiction.
  - destruct ps as [| q ps].
    + intros H. exists p. split; [left | exact H].
    + intros H. apply occurs_separated in H as [H | H]; [| | exact Hx].
      * exists p. split; [left | exact H].
      * destruct (IH H) as (p' & Hin & Hocc).
        exists p'. split; [right; exact Hin | exact Hocc].
Qed.

Lemma lstrip_occurs s : occurs (lstrip s) s.
Proof.
  induction s as [| c s IH]; cbn.
  - apply occurs_refl.
  - destruct (isspace c).
    + apply (occurs_app_r _ [c] s), IH.
    + apply occurs_refl.
Qed.

Lemma rstrip_prefix s : exists r, s = rstrip s ++ r.
Proof.
  induction s as [| c s [r IH]]; cbn.
  - exists []. reflexivity.
  - destruct (rstrip s) as [| d t] eqn:R.
    + destruct (isspace c).
      * exists (c :: s). reflexivity.
      * exists s. reflexivity.
    + exists r. cbn. now rewrite IH at 1.
Qed.

Lemma strip_occurs s : occurs (strip s) s.
Proof.
  unfold strip. apply occurs_trans with (lstrip s); [| apply lstrip_occurs].
  destruct (rstrip_prefix (lstrip s)) as [r H].
  rewrite H at 2. apply occurs_left.
Qed.

Lemma splitlines_aux_occurs (m : nat) :
  forall s cur line, (List.length s <= m)%nat ->
    line ∈ splitlines_aux cur s -> occurs line (rev cur ++ s).
Proof.
  induction m as [| m IH]; intros s cur line Hlen.
  - destruct s; [| cbn in Hlen; lia]. cbn.
    destruct cur; [intros H; inversion H |].
    intros H. apply list_elem_of_singleton in H as ->.
    rewrite app_nil_r. apply occurs_refl.
  - destruct s as [| c s'].
    + cbn. destruct cur; [intros H; inversion H |].
      intros H. apply list_elem_of_singleton in H as ->.
      rewrite app_nil_r. apply occurs_refl.
    + cbn [splitlines_aux]. cbn in Hlen.
      destruct (is_linebreak c).
      * intros H. apply elem_of_cons in H as [-> | H]; [apply occurs_left |].
        apply occurs_app_r, (occurs_app_r _ [c] s').
        destruct s' as [| d s''].
        -- apply (IH [] []) in H; [exact H | cbn; lia].
        -- destruct ((c =? 13) && (d =? 10)).
           ++ apply (IH s'' []) in H; [| cbn in *; lia].
              apply (occurs_app_r _ [d] s''), H.
           ++ apply (IH (d :: s'') []) in H; [exact H | cbn in *; lia].
      * intros H. apply IH in H; [| lia].
        cbn in H. rewrite <- app_assoc in H. exact H.
Qed.

Lemma splitlines_occurs s line : line ∈ splitlines s -> occurs line s.
Proof. apply (splitlines_aux_occurs (List.length s) s []). lia. Qed.

Lemma split2_aux_occurs (m : nat) :
  forall s cur piece, (List.length s <= m)%nat ->
    piece ∈ split2_aux cur s -> occurs piece (rev cur ++ s).
Proof.
  induction m as [| m IH]; intros s cur piece Hlen.
  - destruct s; [| cbn in Hlen; lia]. cbn.
    intros H. apply list_elem_of_singleton in H as ->.
    rewrite app_nil_r. apply occurs_refl.
  - destruct s as [| c s'].
    + cbn. intros H. apply list_elem_of_singleton in H as ->.
      rewrite app_nil_r. apply occurs_refl.
    + cbn [split2_aux]. cbn in Hlen.
      assert (Hstep : piece ∈ split2_aux (c :: cur) s' ->
                      occurs piece (rev cur ++ c :: s')).
      { intros H. apply IH in H; [| lia].
        cbn in H. rewrite <- app_assoc in H. exact H. }
      destruct s' as [| d s'']; [exact Hstep |].
      destruct ((c =? 32) && (d =? 32)); [| exact Hstep].
      intros H. apply elem_of_cons in H as [-> | H]; [apply occurs_left |].
      apply (IH s'' []) in H; [| cbn in *; lia].
      apply occurs_app_r, (occurs_app_r _ [c; d] s''), H.
Qed.

Lemma split2_occurs s piece : piece ∈ split2 s -> occurs piece s.
Proof. apply (split2_aux_occurs (List.length s) s []). lia. Qed.

Lemma html_chunks_occurs text chunk :
  chunk ∈ html_chunks text -> occurs chunk text.
Proof.
  unfold html_chunks. intros H.
  apply list_elem_of_In, in_flat_map in H as (line & Hline & Hchunk).
  apply in_map_iff in Hline as (raw & <- & Hraw).
  apply in_map_iff in Hchunk as (piece & <- & Hpiece).
  apply list_elem_of_In, splitlines_occurs in Hraw.
  apply list_elem_of_In, split2_occurs in Hpiece.
  eauto using occurs_trans, strip_occurs.
Qed.

(** What is not in the text is not in what [html_text] makes of it. *)
Lemma html_text_contains needle text :
  10 ∉ needle ->
  contains needle text = false ->
  contains needle (html_text text) = false.
Proof.
  intros Hx Hno.
  destruct (contains needle (html_text text)) eqn:Hc; [| reflexivity].
  assert (Hn : needle <> []).
  { intros ->. destruct text; discriminate Hno. }
  apply contains_occurs in Hc. unfold html_text in Hc.
  apply occurs_join in Hc as (chunk & Hin & Hocc); [| exact Hx | exact Hn].
  apply list_elem_of_In, filter_In in Hin as [Hin _].
  apply list_elem_of_In, html_chunks_occurs in Hin.
  assert (Ht : occurs needle text) by eauto using occurs_trans.
  apply contains_occurs in Ht. congruence.
Qed.

End Occurs.

(** ** HTML: what is inside script and style elements *)

Lemma is_script_or_style_names name :
  is_script_or_style name = bool_decide (name ∈ [py "script"; py "style"]).
Proof.
  unfold is_script_or_style. rewrite <- bool_decide_or.
  apply bool_decide_ext. rewrite !elem_of_cons, elem_of_nil. tauto.
Qed.

(** The strings of a list of nodes, each node treated the same way. *)
Lemma filter_flat_map {A B} (f : A -> list B) (keep : B -> bool) l :
  List.filter keep (flat_map f l) = flat_map (fun a => List.filter keep (f a)) l.
Proof.
  induction l as [| a l IH]; [reflexivity |].
  cbn. now rewrite List.filter_app, IH.
Qed.

Lemma outside_scripts_cons name inside :
  outside_scripts (name :: inside)
  = negb (bool_decide (name ∈ [py "script"; py "style"]))
    && outside_scripts inside.
Proof. reflexivity. Qed.

(** Induction on a page: a property of the children gives the property
    of the element. *)
Lemma node_induction (P : node -> Prop) :
  (forall s, P (NavigableString s)) ->
  (forall s, P (CData s)) ->
  (forall s, P (OtherString s)) ->
  (forall name children, Forall P children -> P (Tag name children)) ->
  forall n, P n.
Proof.
  intros Hs Hc Ho Ht. fix IH 1. intros [s | s | s | name children].
  - apply Hs.
  - apply Hc.
  - apply Ho.
  - apply Ht. induction children as [| child children IHc].
    + constructor.
    + constructor; [apply IH | exact IHc].
Qed.

Lemma text_strings_in_script n :
  forall inside,
    outside_scripts inside = false ->
    List.filter (fun item => outside_scripts (fst item))
      (text_strings inside n) = [].
Proof.
  induction n as [s | s | s | name children IH] using node_induction;
    intros inside Hin; cbn -[outside_scripts].
  - now rewrite Hin.
  - now rewrite Hin.
  - reflexivity.
  - induction IH as [| child children IH _ IHc]; [reflexivity |].
    cbn -[outside_scripts]. rewrite List.filter_app, IHc, app_nil_r.
    apply IH. now rewrite outside_scripts_cons, Hin, andb_false_r.
Qed.

(** Taking the script and style elements out of the tree and reading
    the strings that remain gives the strings that had no such element
    around them. *)
Lemma get_text_extract_scripts n :
  forall inside,
    outside_scripts inside = true ->
    flat_map get_text (extract_scripts n)
    = flat_map snd
        (List.filter (fun item => outside_scripts (fst item))
           (text_strings inside n)).
Proof.
  induction n as [s | s | s | name children IH] using node_induction;
    intros inside Hin; cbn -[outside_scripts].
  - rewrite Hin. reflexivity.
  - rewrite Hin. reflexivity.
  - reflexivity.
  - rewrite is_script_or_style_names.
    destruct (bool_decide (name ∈ [py "script"; py "style"])) eqn:Hn.
    + cbn -[outside_scripts]. clear IH.
      induction children as [| child children IHc]; [reflexivity |].
      cbn -[outside_scripts]. rewrite List.filter_app, flat_map_app, <- IHc.
      rewrite text_strings_in_script; [reflexivity |].
      now rewrite outside_scripts_cons, Hn.
    + cbn -[outside_scripts]. rewrite app_nil_r.
      induction IH as [| child children IH _ IHc]; [reflexivity |].
      cbn -[outside_scripts].
      rewrite List.filter_app, !flat_map_app, <- IHc.
      f_equal. apply IH. now rewrite outside_scripts_cons, Hn, Hin.
Qed.

Lemma extracted_text_outside soup :
  flat_map get_text (flat_map extract_scripts soup) = text_outside_scripts soup.
Proof.
  unfold text_outside_scripts.
  induction soup as [| n soup IH]; [reflexivity |].
  cbn -[outside_scripts]. rewrite List.filter_app, !flat_map_app, IH. f_equal.
  now apply get_text_extract_scripts.
Qed.

(** C9, as stated, fails: the page contains a script block whose text is
    "alert(1)", and the output contains "alert(1)", which is also the
    text of a paragraph. *)
Lemma html_script_text_elsewhere :
  Tag (py "script") [NavigableString (py "alert(1)")] ∈ page_alert_twice /\
  fst (extract_html serves_alert_twice (Some (py "h1")) w0)
    = Ret (py "alert(1)") /\
  contains (py "alert(1)") (py "alert(1)") = true.
Proof.
  split; [| split; reflexivity].
  right. left.
Qed.

(** C9, amended. For a page that parses, the script and style elements
    are taken out with all they contain, at any depth, before the text is
    read: the output is made from the strings of the page that have no
    such element around them, and from nothing else.  It is that text
    with lines stripped, split at double spaces, and the non-empty pieces
    joined by newlines.  So a string without a newline that does not
    occur in the text outside those elements, such as the "alert(1)" of a
    script block, does not occur in the output. *)
Theorem script_text_not_in_output (E : env) (file_id : option pystr)
  (w : world) (b : list byte) (soup : list node) (needle : pystr) :
  BS4_AVAILABLE E = true ->
  get_media E file_id = Ret b ->
  BeautifulSoup E (decode_replace b) = Ret soup ->
  10 ∉ needle ->
  contains needle (text_outside_scripts soup) = false ->
  fst (extract_html E file_id w)
    = Ret (html_text (text_outside_scripts soup)) /\
  contains needle (html_text (text_outside_scripts soup)) = false.
Proof.
  intros Ha G Hs Hx Hno. split.
  - rewrite extract_html_run by assumption. rewrite G. cbn.
    unfold html_of. rewrite Hs, extracted_text_outside. reflexivity.
  - now apply html_text_contains.
Qed.

Lemma script_text_not_in_output_witness :
  fst (extract_html serves_page_with_script (Some (py "h1")) w0)
    = Ret (py "Hi a" ++ NL ++ py "b") /\
  contains (py "alert(1)") (py "Hi a" ++ NL ++ py "b") = false.
Proof.
  apply (script_text_not_in_output serves_page_with_script (Some (py "h1")) w0
           (pyb "<h1>Hi</h1><div><script>alert(1)</script></div><p> a  b </p>")
           page_with_script (py "alert(1)")).
  - reflexivity.
  - reflexivity.
  - reflexivity.
  - compute_done.
  - reflexivity.
Defined.

(** ** The loop over the files *)

(** The text an extractor returns does not depend on the state it starts
    from. *)
Section StateIndependence.

Context (E : env).

Ltac same_text :=
  intros; unfold try_except, bind, lift, ret, raise, decode_strict;
  rewrite ?download_file_run, ?export_google_doc_run; cbn beta iota;
  repeat first
    [ reflexivity
    | rewrite extract_text_from_pdf_bytes_run
    | rewrite export_google_doc_run
    | progress cbn beta iota
    | match goal with
      | |- context [match ?x with _ => _ end] =>
          lazymatch x with
          | get_media _ _ => destruct x eqn:?
          | export_media _ _ _ => destruct x eqn:?
          | well_formed _ => destruct x eqn:?
          | BeautifulSoup _ _ => destruct x eqn:?
          end
      end ].

Lemma extract_google_doc_same file_id w w' :
  fst (extract_google_doc E file_id w) = fst (extract_google_doc E file_id w').
Proof. unfold extract_google_doc. same_text. Qed.

Lemma extract_google_sheet_same file_id w w' :
  fst (extract_google_sheet E file_id w) = fst (extract_google_sheet E file_id w').
Proof. unfold extract_google_sheet. same_text. Qed.

Lemma extract_google_slides_same file_id w w' :
  fst (extract_google_slides E file_id w) = fst (extract_google_slides E file_id w').
Proof. unfold extract_google_slides. same_text. Qed.

Lemma extract_pdf_same file_id w w' :
  fst (extract_pdf E file_id w) = fst (extract_pdf E file_id w').
Proof. unfold extract_pdf. same_text. Qed.

Lemma extract_text_file_same file_id w w' :
  fst (extract_text_file E file_id w) = fst (extract_text_file E file_id w').
Proof. unfold extract_text_file. same_text. Qed.

Lemma extract_html_same file_id w w' :
  fst (extract_html E file_id w) = fst (extract_html E file_id w').
Proof.
  unfold extract_html. destruct (BS4_AVAILABLE E); cbn [negb]; same_text.
Qed.

(** The block that stores the download and hands it to a parser. *)
Lemma temp_file_parse_same {A} (b : list byte)
  (parse : list byte -> outcome A) (text : A -> pystr) w w' :
  fst ((temp_path <- NamedTemporaryFile E ;;
        write E temp_path b ;;;
        data <- read_file temp_path ;;
        doc <- lift (parse data) ;;
        try_except (unlink E temp_path) (fun _ => ret tt) ;;;
        ret (text doc)) w) =
  fst ((temp_path <- NamedTemporaryFile E ;;
        write E temp_path b ;;;
        data <- read_file temp_path ;;
        doc <- lift (parse data) ;;
        try_except (unlink E temp_path) (fun _ => ret tt) ;;;
        ret (text doc)) w').
Proof.
  unfold bind, NamedTemporaryFile, write, read_file, lift, try_except,
    unlink, ret.
  destruct (tempfile_error E); [reflexivity |].
  destruct (write_error E); [reflexivity |]. cbn.
  rewrite !lookup_insert_eq.
  destruct (parse b); [| reflexivity].
  destruct (unlink_error E); [reflexivity |]. cbn.
  rewrite !lookup_insert_eq. reflexivity.
Qed.

Lemma guarded_download_same file_id (k : list byte -> M pystr)
  (h : exn -> pystr) w w' :
  (forall b w w', fst (k b w) = fst (k b w')) ->
  fst (try_except
         (content <- download_file E file_id ;;
          match content with
          | Some b => k b
          | None => ret []
          end)
         (fun e => ret (h e)) w) =
  fst (try_except
         (content <- download_file E file_id ;;
          match content with
          | Some b => k b
          | None => ret []
          end)
         (fun e => ret (h e)) w').
Proof.
  intros Hk. unfold try_except, bind. rewrite !download_file_run.
  destruct (get_media E file_id) as [b | e]; [| reflexivity].
  specialize (Hk b (logged (GetMedia file_id) w) (logged (GetMedia file_id) w')).
  destruct (k b (logged (GetMedia file_id) w)) as [[s | e] w1],
           (k b (logged (GetMedia file_id) w')) as [[s' | e'] w1'];
    cbn in *; congruence.
Qed.

Lemma extract_docx_same file_id w w' :
  fst (extract_docx E file_id w) = fst (extract_docx E file_id w').
Proof.
  unfold extract_docx. destruct (DOCX_AVAILABLE E); cbn [negb]; [| reflexivity].
  apply guarded_download_same. intros b w1 w2.
  apply (temp_file_parse_same b (docx_Document E)
           (fun doc => join NL (docx_paragraphs doc))).
Qed.

Lemma extract_pptx_same file_id w w' :
  fst (extract_pptx E file_id w) = fst (extract_pptx E file_id w').
Proof.
  unfold extract_pptx. destruct (PPTX_AVAILABLE E); cbn [negb]; [| reflexivity].
  apply guarded_download_same. intros b w1 w2.
  apply (temp_file_parse_same b (pptx_Presentation E)
           (fun slides => join (NL ++ NL) (pptx_full_text slides))).
Qed.

Lemma extract_file_content_same fi w w' :
  fst (extract_file_content E fi w) = fst (extract_file_content E fi w').
Proof.
  unfold extract_file_content.
  repeat case_bool_decide;
    auto using extract_google_doc_same, extract_google_sheet_same,
      extract_google_slides_same, extract_pdf_same, extract_docx_same,
      extract_pptx_same, extract_text_file_same, extract_html_same.
Qed.

End StateIndependence.

Lemma extract_file_content_text E fi w :
  exists w', extract_file_content E fi w = (Ret (text_of E fi), w').
Proof.
  destruct (extract_file_content_returns_text E fi w) as (s & w' & H & _).
  exists w'. rewrite H. f_equal. f_equal.
  unfold text_of. rewrite (extract_file_content_same E fi w0 w), H.
  reflexivity.
Qed.

(** Whether the summarizer returns does not depend on the state either. *)
Lemma generate_content_summary_same E text w w' :
  fst (generate_content_summary E text w) =
  fst (generate_content_summary E text w').
Proof.
  unfold generate_content_summary.
  destruct (negb (truthy text) || negb (truthy (strip text)));
    [reflexivity |].
  unfold try_except, bind, send, lift, ret.
  destruct (OpenAI E) as [[] | e]; [| reflexivity].
  destruct (chat_completion E _) as [[[s |] [k |]] | e]; reflexivity.
Qed.

(** On a text that is not blank the summarizer returns exactly when the
    OpenAI client can be constructed: the construction is outside its
    [try] block. *)
Lemma summarizer_returns_client E text :
  truthy (strip text) = true ->
  summarizer_returns E text =
  match OpenAI E with Ret _ => true | Raise _ => false end.
Proof.
  intros Hs. unfold summarizer_returns, generate_content_summary.
  assert (Ht : truthy text = true).
  { destruct text; [discriminate Hs | reflexivity]. }
  rewrite Ht, Hs. cbn [negb orb].
  unfold try_except, bind, send, lift, ret.
  destruct (OpenAI E) as [[] | e]; [| reflexivity].
  destruct (chat_completion E _) as [[[s |] [k |]] | e]; reflexivity.
Qed.

Lemma truthy_strip text :
  truthy text && truthy (strip text) = truthy (strip text).
Proof. destruct text; reflexivity. Qed.

(** What one turn does, in terms of the state the extraction leaves. *)
Lemma process_file_eq E results fi w :
  process_file E results fi w =
  if truthy (strip (text_of E fi)) then
    match generate_content_summary E (text_of E fi)
            (snd (extract_file_content E fi w)) with
    | (Ret sm, w') =>
        (Ret (results ++ [ {| metadata := fi; doc_summary := sm;
                              content := text_of E fi |} ]), w')
    | (Raise _, w') => (Ret results, w')
    end
  else (Ret results, snd (extract_file_content E fi w)).
Proof.
  destruct (extract_file_content_text E fi w) as (w1 & Hx).
  unfold process_file, extract_content, generate_summary.
  unfold try_except, bind at 1. rewrite Hx, truthy_strip. cbn [snd].
  destruct (truthy (strip (text_of E fi))); [| reflexivity].
  unfold bind, ret.
  destruct (generate_content_summary E (text_of E fi) w1) as [[sm | e] w'];
    reflexivity.
Qed.

(** One turn of the loop. *)
Lemma process_file_run E results fi w :
  exists w',
    if keeps E fi then
      exists sm,
        process_file E results fi w =
        (Ret (results ++ [ {| metadata := fi; doc_summary := sm;
                              content := text_of E fi |} ]), w')
    else process_file E results fi w = (Ret results, w').
Proof.
  pose proof (process_file_eq E results fi w) as Hrun.
  unfold keeps, summarizer_returns.
  rewrite (generate_content_summary_same E (text_of E fi) w0
             (snd (extract_file_content E fi w))).
  destruct (truthy (strip (text_of E fi))); cbn [andb].
  - destruct (generate_content_summary E (text_of E fi) _) as [[sm | e] w'];
      cbn [fst].
    + exists w', sm. exact Hrun.
    + exists w'. exact Hrun.
  - eexists. exact Hrun.
Qed.

Lemma process_files_run E files : forall results w,
  exists new w',
    process_files E files results w = (Ret (results ++ new), w') /\
    List.map metadata new = List.filter (keeps E) files /\
    Forall (fun r => content r = text_of E (metadata r)) new.
Proof.
  induction files as [| fi rest IH]; intros results w; cbn.
  - exists [], w. rewrite app_nil_r. repeat split. constructor.
  - unfold bind.
    destruct (process_file_run E results fi w) as (w1 & H).
    destruct (keeps E fi).
    + destruct H as (sm & H). rewrite H.
      destruct (IH (results ++ [ {| metadata := fi; doc_summary := sm;
                                    content := text_of E fi |} ]) w1)
        as (new & w' & Hrun & Hm & Hc).
      eexists (_ :: new), w'. rewrite Hrun, <- app_assoc. cbn.
      repeat split; [now rewrite Hm | now constructor].
    + rewrite H.
      destruct (IH results w1) as (new & w' & Hrun & Hm & Hc).
      exists new, w'. rewrite Hrun. repeat split; assumption.
Qed.

Lemma rstrip_ends (s : pystr) (c : N) :
  isspace c = false -> rstrip (s ++ [c]) <> [].
Proof.
  intros Hc. induction s as [| d s IH]; cbn.
  - rewrite Hc. discriminate.
  - destruct (rstrip (s ++ [c])); [contradiction | discriminate].
Qed.

(** A bracketed failure string is not blank. *)
Lemma bracketed_not_blank (s : pystr) :
  bracketed s -> truthy (strip s) = true.
Proof.
  intros [body ->].
  replace (py "[" ++ body ++ py "]") with ((91 :: body) ++ [93])
    by reflexivity.
  unfold strip.
  replace (lstrip ((91 :: body) ++ [93])) with ((91 :: body) ++ [93])
    by reflexivity.
  pose proof (rstrip_ends (91 :: body) 93 eq_refl) as H.
  destruct (rstrip ((91 :: body) ++ [93])); [contradiction | reflexivity].
Qed.

(** C5, as stated, fails: the text extracted from the file is "hello",
    which is not blank, and the file gets no record, because the
    construction of the OpenAI client raises. *)
Lemma client_failure_drops_record :
  text_of (small_drive (Raise boom)) (listed "f1" "notes.txt" "text/plain")
    = py "hello" /\
  truthy (strip (py "hello")) = true /\
  fst (process_files (small_drive (Raise boom))
         [listed "f1" "notes.txt" "text/plain"] [] w0) = Ret [].
Proof. repeat split. Qed.

(** C5, amended. The loop returns one record per listed file, in listing
    order, with the text the dispatcher returned for it, a failure string
    included, except for the files it skips: those whose text is empty
    after stripping, for which nothing happens after the extraction (the
    summarizer is not called), and those for which the summarizer
    raises. *)
Theorem records_follow_listing (E : env) (files : list file_info)
  (w : world) :
  (exists rs w',
     process_files E files [] w = (Ret rs, w') /\
     List.map metadata rs = List.filter (keeps E) files /\
     Forall (fun r => content r = text_of E (metadata r)) rs) /\
  (forall fi results w1,
     truthy (strip (text_of E fi)) = false ->
     process_file E results fi w1 =
     (Ret results, snd (extract_file_content E fi w1))) /\
  (forall fi,
     bracketed (text_of E fi) ->
     summarizer_returns E (text_of E fi) = true -> keeps E fi = true).
Proof.
  split; [| split].
  - destruct (process_files_run E files [] w) as (new & w' & H & Hm & Hc).
    exists new, w'. auto.
  - intros fi results w1 Hs. rewrite process_file_eq, Hs. reflexivity.
  - intros fi Hb Ho. unfold keeps.
    rewrite (bracketed_not_blank _ Hb), Ho. reflexivity.
Qed.

Lemma records_follow_listing_witness :
  (exists rs w',
     process_files (small_drive (Ret tt)) listing [] w0 = (Ret rs, w') /\
     List.map metadata rs =
       [listed "f1" "notes.txt" "text/plain";
        listed "f3" "photo.png" "image/png"]) /\
  process_file (small_drive (Ret tt)) [] (listed "f2" "blank.txt" "text/plain") w0
    = (Ret [], World ∅ [GetMedia (Some (py "f2"))]) /\
  keeps (small_drive (Ret tt)) (listed "f3" "photo.png" "image/png") = true.
Proof.
  destruct (records_follow_listing (small_drive (Ret tt)) listing w0)
    as ((rs & w' & Hrun & Hm & _) & Hblank & Hfail).
  split; [| split].
  - exists rs, w'. split; [exact Hrun | exact Hm].
  - apply (Hblank (listed "f2" "blank.txt" "text/plain") [] w0). reflexivity.
  - apply Hfail; [| reflexivity].
    exists (py "Content extraction not supported for file type: image/png").
    reflexivity.
Defined.

(** * Further properties *)

(** ** Paths in Drive *)



Lemma nonempty_some (folder : pystr) :
  folder <> [] -> nonempty (Some folder) = Some folder.
Proof. destruct folder; [contradiction | reflexivity]. Qed.

Lemma path_loop_ancestors drive folder names :
  ancestors drive folder names ->
  forall path_parts,
    (List.length names + List.length path_parts <= 100)%nat ->
    path_loop drive (Some folder) path_parts = rev names ++ path_parts.
Proof.
  induction 1 as [folder name Hf Hget
                 | folder name parent others names Hf Hget Hup IH];
    intros path_parts Hlen; cbn [List.length] in Hlen.
  - simp path_loop. rewrite (nonempty_some _ Hf). cbn -[le_lt_dec].
    rewrite Hget. cbn -[le_lt_dec].
    destruct (le_lt_dec (S (List.length path_parts)) 100); [| lia].
    cbn. simp path_loop. reflexivity.
  - simp path_loop. rewrite (nonempty_some _ Hf). cbn -[le_lt_dec].
    rewrite Hget. cbn -[le_lt_dec].
    destruct (le_lt_dec (S (List.length path_parts)) 100); [| lia].
    cbn. rewrite IH; [| cbn; lia].
    now rewrite <- app_assoc.
Qed.

(** X2. When the folders above a file answer with their names, up to a
    folder without parents, and there are at most 99 of them, the path is
    the slash-separated list of their names from the top down, followed
    by the name of the file. *)
Theorem get_file_path_of_ancestors (drive : drive_service)
  (file : listed_file) (parent : pystr) (others names : list pystr) :
  lf_parents file = Some (parent :: others) ->
  ancestors drive parent names ->
  (List.length names <= 99)%nat ->
  get_file_path drive file
  = py "/" ++ join (py "/") (rev names ++ [fi_name (lf_info file)]).
Proof.
  intros Hp Hup Hlen. unfold get_file_path. rewrite Hp.
  rewrite (path_loop_ancestors drive parent names Hup); [reflexivity |].
  cbn. lia.
Qed.

Lemma get_file_path_of_ancestors_witness :
  get_file_path shared_drive report
  = py "/My Drive/Reports/q3.pdf".
Proof.
  apply (get_file_path_of_ancestors shared_drive report (py "d2") []
           [py "Reports"; py "My Drive"]).
  - reflexivity.
  - apply (ancestors_up shared_drive (py "d2") (py "Reports") (py "d1") []);
      [discriminate | reflexivity |].
    apply ancestors_top; [discriminate | reflexivity].
  - cbn. lia.
Defined.

(** ** The listing *)

Lemma list_pages_served drive query token files :
  served drive query token files ->
  exists n, forall fuel all_files,
    (n <= fuel)%nat ->
    list_pages drive query fuel token all_files = Some (all_files ++ files).
Proof.
  induction 1 as [token e Herr | token r Hr Hend
                 | token r next rest Hr Hnext Hrest [n IH]].
  - exists 1%nat. intros [| fuel] all_files Hf; [lia |]. cbn.
    rewrite Herr, app_nil_r. reflexivity.
  - exists 1%nat. intros [| fuel] all_files Hf; [lia |]. cbn.
    rewrite Hr, Hend. reflexivity.
  - exists (S n). intros [| fuel] all_files Hf; [lia |]. cbn.
    rewrite Hr, Hnext, IH by lia. now rewrite <- app_assoc.
Qed.

(** X3. When the pages the service serves for the query end, by a page
    without a token for the next one or by a request that fails, the
    listing, given turns enough, returns the files of these pages in the
    order served, each with the path [get_file_path] gives it; a request
    that fails ends the listing with the files of the pages before it and
    raises nothing. *)
Theorem list_all_files_served (drive : drive_service)
  (folder_id : option pystr) (files : list listed_file) :
  served drive (list_query folder_id) None files ->
  exists n, forall fuel,
    (n <= fuel)%nat ->
    list_all_files drive fuel folder_id
    = Some (List.map (fun file => (file, get_file_path drive file)) files).
Proof.
  intros Hs. destruct (list_pages_served _ _ _ _ Hs) as [n Hn].
  exists n. intros fuel Hf. unfold list_all_files.
  rewrite (Hn fuel [] Hf). reflexivity.
Qed.

Lemma list_all_files_served_witness :
  exists n, forall fuel,
    (n <= fuel)%nat ->
    list_all_files shared_drive fuel (Some (py "d2"))
    = Some [ (report, py "/My Drive/Reports/q3.pdf");
             (memo, py "/memo.txt") ].
Proof.
  destruct (list_all_files_served shared_drive (Some (py "d2"))
              [report; memo]) as [n Hn].
  - apply (served_more shared_drive _ None
             {| page_files := Some [report];
                nextPageToken := Some (py "t2") |} (py "t2") [memo]);
      [reflexivity | reflexivity |].
    apply (served_last shared_drive _ (Some (py "t2"))
             {| page_files := Some [memo]; nextPageToken := None |});
      reflexivity.
  - exists n. exact Hn.
Defined.

Lemma path_loop_climbs drive current_parent names :
  climbs drive current_parent names ->
  forall path_parts,
    (List.length names + List.length path_parts = 101)%nat ->
    names <> [] ->
    path_loop drive current_parent path_parts
    = py "..." :: rev names ++ path_parts.
Proof.
  induction 1 as [| current_parent folder parent_info name next names
                    Hcp Hget Hname Hnext Hup IH];
    intros path_parts Hlen Hne; [contradiction |].
  cbn [List.length] in Hlen.
  simp path_loop. rewrite Hcp. cbn -[le_lt_dec].
  rewrite Hget. cbn -[le_lt_dec]. rewrite Hname. cbn -[le_lt_dec].
  rewrite Hnext. cbn -[le_lt_dec].
  destruct (le_lt_dec (S (List.length path_parts)) 100) as [Hle | Hgt]; cbn.
  - destruct names as [| name' names]; [cbn in Hlen; lia |].
    rewrite IH; [| cbn in *; lia | discriminate].
    cbn. now rewrite <- !app_assoc.
  - destruct names as [| name' names]; [reflexivity | cbn in Hlen; lia].
Qed.

(** X4. When a file has a hundred folders above it that answer, the loop
    stops there, whatever lies further up: the path is "/..." followed by
    the names of these hundred folders, from the farthest down, and the
    name of the file. *)
Theorem get_file_path_cut_at_100 (drive : drive_service)
  (file : listed_file) (parent : pystr) (others names : list pystr) :
  lf_parents file = Some (parent :: others) ->
  climbs drive (Some parent) names ->
  List.length names = 100%nat ->
  get_file_path drive file
  = py "/" ++ join (py "/")
                (py "..." :: rev names ++ [fi_name (lf_info file)]).
Proof.
  intros Hp Hup Hlen. unfold get_file_path. rewrite Hp.
  rewrite (path_loop_climbs drive (Some parent) names Hup);
    [reflexivity | cbn; lia |].
  intros ->. discriminate Hlen.
Qed.

Lemma get_file_path_cut_at_100_witness :
  get_file_path looping_drive lost
  = py "/" ++ join (py "/")
                (py "..." :: repeat (py "loop") 100 ++ [py "lost.txt"]).
Proof.
  apply (get_file_path_cut_at_100 looping_drive lost (py "d0") []
           (repeat (py "loop") 100)).
  - reflexivity.
  - cbn [repeat].
    repeat (eapply climbs_step; [reflexivity | reflexivity | reflexivity
                                | reflexivity |]).
    apply climbs_here.
  - reflexivity.
Defined.

(** ** Retrying with a growing wait *)

Section Retry.

Context {A : Type} (is_rate_limit : exn -> bool) (func : nat -> outcome A).
Context (max_retries : nat) (delay : N).

Lemma backoff_snoc k :
  backoff delay (S k) = backoff delay k ++ [delay * 2 ^ N.of_nat (S k)].
Proof. unfold backoff. now rewrite seq_S, map_app. Qed.

(** From the turn with [r] retries behind it, when call number [k]
    decides. *)
Lemma retry_loop_decided k : forall d r sleeps,
  (k = r + d)%nat ->
  (k < max_retries)%nat ->
  (forall i, (r <= i < k)%nat ->
     exists e, func i = Raise e /\ is_rate_limit e = true) ->
  decisive is_rate_limit (func k) = true ->
  retry_loop is_rate_limit func max_retries delay r sleeps
  = {| retry_outcome := passed_on (func k);
       retry_calls := S k;
       retry_sleeps :=
         sleeps ++ List.map (fun i => delay * 2 ^ N.of_nat i) (seq (S r) d) |}.
Proof.
  induction d as [| d IH]; intros r sleeps Hk Hmax Hlim Hdec.
  - replace r with k in * by lia.
    simp retry_loop. destruct (lt_dec k max_retries); [| lia]. cbn.
    destruct (func k) as [a | e]; cbn in *.
    + now rewrite app_nil_r.
    + destruct (is_rate_limit e); [discriminate Hdec |]. cbn.
      now rewrite app_nil_r.
  - simp retry_loop. destruct (lt_dec r max_retries); [| lia]. cbn.
    destruct (Hlim r) as (e & -> & He); [lia |]. cbn. rewrite He. cbn.
    destruct (le_lt_dec max_retries (S r)); [lia |]. cbn.
    rewrite (IH (S r)); [| lia | lia | intros i Hi; apply Hlim; lia | exact Hdec].
    cbn [seq List.map]. now rewrite <- app_assoc.
Qed.

(** From the turn with [r] retries behind it, when every call is
    answered by a rate limit error. *)
Lemma retry_loop_exhausted : forall d r sleeps e,
  (max_retries = S (r + d))%nat ->
  (forall i, (r <= i < max_retries)%nat ->
     exists e, func i = Raise e /\ is_rate_limit e = true) ->
  func (r + d)%nat = Raise e ->
  retry_loop is_rate_limit func max_retries delay r sleeps
  = {| retry_outcome := Raise e;
       retry_calls := max_retries;
       retry_sleeps :=
         sleeps ++ List.map (fun i => delay * 2 ^ N.of_nat i) (seq (S r) d) |}.
Proof.
  induction d as [| d IH]; intros r sleeps e Hmax Hlim Hlast.
  - rewrite Nat.add_0_r in *.
    simp retry_loop. destruct (lt_dec r max_retries); [| lia]. cbn.
    destruct (Hlim r) as (e' & He' & Hrl); [lia |].
    rewrite He' in Hlast. injection Hlast as ->.
    rewrite He'. cbn. rewrite Hrl. cbn.
    destruct (le_lt_dec max_retries (S r)); [| lia]. cbn.
    rewrite app_nil_r, Hmax. reflexivity.
  - simp retry_loop. destruct (lt_dec r max_retries); [| lia]. cbn.
    destruct (Hlim r) as (e' & -> & Hrl); [lia |]. cbn. rewrite Hrl. cbn.
    destruct (le_lt_dec max_retries (S r)); [lia |]. cbn.
    rewrite (IH (S r) _ e); [| lia | intros i Hi; apply Hlim; lia
                            | rewrite <- Hlast; f_equal; lia].
    cbn [seq List.map]. now rewrite <- app_assoc.
Qed.

Lemma retry_loop_bounded : forall r sleeps,
  (r <= max_retries)%nat ->
  let run := retry_loop is_rate_limit func max_retries delay r sleeps in
  (r <= retry_calls run <= max_retries)%nat /\
  ((r < max_retries)%nat -> (S r <= retry_calls run)%nat) /\
  (List.length (retry_sleeps run) + S r
     = List.length sleeps + Nat.max (S r) (retry_calls run))%nat.
Proof.
  intros r sleeps.
  funelim (retry_loop is_rate_limit func max_retries delay r sleeps);
    try clear Heqcall; intros Hr; cbn in *.
  - repeat split; lia.
  - repeat split; lia.
  - repeat split; lia.
  - repeat split; lia.
  - destruct H as ((H1 & H2) & H3 & H4); [lia |].
    rewrite length_app in *. cbn in *. repeat split; lia.
Qed.

End Retry.

(** X5. Whatever [func] does, [retry_with_exponential_backoff] calls it
    at most [max_retries] times, and waits once between two calls, not
    before the first and not after the last. *)
Theorem retry_calls_bounded {A : Type} (is_rate_limit : exn -> bool)
  (func : nat -> outcome A) (max_retries : nat) (initial_delay : N) :
  let run :=
    retry_with_exponential_backoff is_rate_limit func max_retries
      initial_delay in
  (retry_calls run <= max_retries)%nat /\
  List.length (retry_sleeps run) = (retry_calls run - 1)%nat.
Proof.
  intros run. unfold run, retry_with_exponential_backoff.
  destruct (retry_loop_bounded is_rate_limit func max_retries initial_delay
              0 []) as ((_ & Hmax) & _ & Hlen); [lia |].
  cbn in *. split; lia.
Qed.

(** X6. When the calls before call number [k] are answered by a rate
    limit error, and call number [k], with [k] below [max_retries],
    returns or raises another error, then the caller gets just that;
    [func] has been called [k + 1] times, and the waits in between were
    the delay times 2, 4, ..., 2 ^ k (each plus the random part). *)
Theorem retry_decided_by_first_other {A : Type} (is_rate_limit : exn -> bool)
  (func : nat -> outcome A) (max_retries : nat) (initial_delay : N)
  (k : nat) :
  (k < max_retries)%nat ->
  rate_limited_before is_rate_limit func k ->
  decisive is_rate_limit (func k) = true ->
  retry_with_exponential_backoff is_rate_limit func max_retries initial_delay
  = {| retry_outcome := passed_on (func k);
       retry_calls := S k;
       retry_sleeps := backoff initial_delay k |}.
Proof.
  intros Hk Hlim Hdec. unfold retry_with_exponential_backoff.
  rewrite (retry_loop_decided is_rate_limit func max_retries initial_delay
             k k 0 []); [reflexivity | lia | exact Hk | | exact Hdec].
  intros i Hi. apply Hlim. lia.
Qed.

Lemma retry_decided_by_first_other_witness :
  retry_with_exponential_backoff is_rate_limit third_time 5 1
  = {| retry_outcome := Ret (Some (py "ok"));
       retry_calls := 3;
       retry_sleeps := [2; 4] |}.
Proof.
  apply (retry_decided_by_first_other is_rate_limit third_time 5 1 2).
  - lia.
  - intros [| [| i]] Hi; [| | lia]; exists rate_limit; split; reflexivity.
  - reflexivity.
Defined.

(** X7. When every call is answered by a rate limit error, the last of
    the [max_retries] calls passes its error on to the caller; the waits
    before it were the delay times 2, 4, ..., 2 ^ (max_retries - 1). *)
Theorem retry_exhausted {A : Type} (is_rate_limit : exn -> bool)
  (func : nat -> outcome A) (max_retries : nat) (initial_delay : N)
  (e : exn) :
  (0 < max_retries)%nat ->
  rate_limited_before is_rate_limit func max_retries ->
  func (max_retries - 1)%nat = Raise e ->
  retry_with_exponential_backoff is_rate_limit func max_retries initial_delay
  = {| retry_outcome := Raise e;
       retry_calls := max_retries;
       retry_sleeps := backoff initial_delay (max_retries - 1) |}.
Proof.
  intros Hpos Hlim Hlast. unfold retry_with_exponential_backoff.
  rewrite (retry_loop_exhausted is_rate_limit func max_retries
             initial_delay (max_retries - 1) 0 [] e);
    [reflexivity | lia | | exact Hlast].
  intros i Hi. apply Hlim. lia.
Qed.

Lemma retry_exhausted_witness :
  retry_with_exponential_backoff is_rate_limit always_limited 3 1
  = {| retry_outcome := Raise rate_limit;
       retry_calls := 3;
       retry_sleeps := [2; 4] |}.
Proof.
  apply (retry_exhausted is_rate_limit always_limited 3 1 rate_limit).
  - lia.
  - intros i Hi. exists rate_limit. split; reflexivity.
  - reflexivity.
Defined.

(** ** The configuration *)

Section ConfigProperties.

Context {value : Type} (value_true : value -> bool) (of_str : pystr -> value).

Lemma load_config_updated environ_key config_file config :
  load_config value_true of_str environ_key config_file = Ret config ->
  config =
    match config_file with
    | Some (Ret file_config) => file_config
    | _ => ∅
    end ∪ {[ py "openai_api_key" := of_str (default [] environ_key) ]} /\
  exists key,
    config !! py "openai_api_key" = Some key /\ value_true key = true.
Proof.
  unfold load_config.
  destruct config_file as [[file_config | e] |]; [| discriminate |].
  - destruct ((file_config ∪ _) !! py "openai_api_key") as [key |] eqn:Hk;
      [| discriminate].
    destruct (value_true key) eqn:Ht; [| discriminate].
    intros [= <-]. split; [reflexivity | eauto].
  - destruct (({[ _ := _ ]} : gmap pystr value) !! py "openai_api_key")
      as [key |] eqn:Hk; [| discriminate].
    destruct (value_true key) eqn:Ht; [| discriminate].
    intros [= <-]. rewrite (left_id_L ∅ (∪)). split; [reflexivity | eauto].
Qed.

End ConfigProperties.

(** X8. A configuration that [load_config] returns holds a key
    "openai_api_key" whose value is true (not empty), holds every entry
    of the configuration file, and takes from the environment only the
    key that the file does not give. *)
Theorem load_config_returned {value : Type} (value_true : value -> bool)
  (of_str : pystr -> value) (environ_key : option pystr)
  (file_config config : gmap pystr value) :
  load_config value_true of_str environ_key (Some (Ret file_config))
    = Ret config ->
  (exists key,
     config !! py "openai_api_key" = Some key /\ value_true key = true) /\
  (forall k v, file_config !! k = Some v -> config !! k = Some v) /\
  (file_config !! py "openai_api_key" = None ->
   config !! py "openai_api_key" = Some (of_str (default [] environ_key))) /\
  dom config = dom file_config ∪ {[ py "openai_api_key" ]}.
Proof.
  intros H. apply load_config_updated in H as [-> Hkey].
  split; [exact Hkey |]. split; [| split].
  - intros k v Hk. apply lookup_union_Some_l. exact Hk.
  - intros Hnone. rewrite lookup_union_r by exact Hnone.
    apply lookup_singleton_eq.
  - rewrite dom_union_L, dom_singleton_L. reflexivity.
Qed.

Lemma load_config_returned_witness :
  exists config,
    load_config truthy (fun s => s) (Some (py "sk-env"))
      (Some (Ret {[ py "model" := py "gpt-4o" ]})) = Ret config /\
    config !! py "model" = Some (py "gpt-4o") /\
    config !! py "openai_api_key" = Some (py "sk-env").
Proof.
  eexists. split; [reflexivity |].
  destruct (load_config_returned truthy (fun s => s) (Some (py "sk-env"))
              {[ py "model" := py "gpt-4o" ]}
              ({[ py "model" := py "gpt-4o" ]}
                 ∪ {[ py "openai_api_key" := py "sk-env" ]}))
    as (_ & Hfile & Henv & _); [reflexivity |].
  split.
  - apply Hfile. reflexivity.
  - apply Henv. reflexivity.
Defined.

(** X9. A configuration file that gives the key a value that is not true
    (an empty string, say) makes [load_config] raise, whatever the
    environment variable holds; and so does an empty or unset variable
    when the file does not give the key or does not exist. *)
Theorem load_config_key_required {value : Type} (value_true : value -> bool)
  (of_str : pystr -> value) (environ_key : option pystr)
  (config_file : option (gmap pystr value)) :
  value_true
    (default (of_str (default [] environ_key))
       (config_file ≫= (.!! py "openai_api_key"))) = false ->
  exists e,
    load_config value_true of_str environ_key (Ret <$> config_file)
    = Raise e.
Proof.
  intros H. unfold load_config.
  remember (py "openai_api_key") as k eqn:Ek.
  destruct config_file as [file_config |]; cbn in *.
  - rewrite lookup_union.
    destruct (file_config !! k) as [key |] eqn:Hk; cbn in *.
    + rewrite lookup_singleton_eq. cbn. rewrite H. eauto.
    + rewrite lookup_singleton_eq. cbn. rewrite H. eauto.
  - rewrite lookup_singleton_eq, H. eauto.
Qed.

Lemma load_config_key_required_witness :
  exists e,
    load_config truthy (fun s => s) (Some (py "sk-env"))
      (Some (Ret {[ py "openai_api_key" := [] ]})) = Raise e.
Proof.
  apply (load_config_key_required truthy (fun s => s) (Some (py "sk-env"))
           (Some {[ py "openai_api_key" := [] ]})).
  reflexivity.
Defined.

(** ** Anchors *)

(** X10. Whatever the text, an anchor made by [create_anchor_link]
    consists of characters that [\w] matches and of hyphens only, so it
    holds no space and no punctuation, and when it is not empty it starts
    with a letter or a digit. *)
Theorem create_anchor_link_wellformed (lower : pystr -> pystr)
  (unicode_alnum : N -> bool) (text : pystr) :
  let anchor := create_anchor_link lower unicode_alnum text in
  Forall (fun c => is_word unicode_alnum c = true \/ c = 45) anchor /\
  match anchor with
  | c :: _ => isalnum unicode_alnum c = true
  | [] => True
  end.
Proof.
  intros anchor. subst anchor. unfold create_anchor_link.
  set (kept := List.filter _ _).
  assert (Hkept : Forall (fun c => is_word unicode_alnum c = true \/ c = 45)
                    kept).
  { apply Forall_forall. intros c Hc.
    apply list_elem_of_In, filter_In in Hc as [_ Hc].
    apply orb_true_iff in Hc as [Hc | Hc]; [left; exact Hc |].
    right. now apply N.eqb_eq. }
  destruct kept as [| c rest]; [split; [constructor | exact I] |].
  destruct (isalnum unicode_alnum c) eqn:Hc; cbn [negb].
  - split; [exact Hkept | exact Hc].
  - split; [| reflexivity].
    repeat (constructor; [first [left; reflexivity | right; reflexivity] |]).
    exact Hkept.
Qed.

(** ** Decoding text *)

Lemma scan_ascii (b : list byte) :
  Forall (fun x => Byte.to_N x < 128) b ->
  scan None b = List.map (fun x => Some (Byte.to_N x)) b.
Proof.
  induction 1 as [| x b Hx _ IH]; [reflexivity |].
  cbn [scan List.map]. unfold start_byte.
  apply N.ltb_lt in Hx. rewrite Hx. cbn. now rewrite IH.
Qed.

Lemma decode_well_formed (b : list byte) :
  well_formed b = true -> decode_replace b = code_points b.
Proof.
  unfold well_formed, decode_replace, code_points.
  induction (scan None b) as [| [cp |] items IH]; cbn; intros H.
  - reflexivity.
  - now rewrite IH.
  - discriminate H.
Qed.

(** X12. A download made of bytes below 128 comes back from the
    plain-text extractor as the same characters, one per byte: nothing
    is replaced, dropped or added. *)
Theorem text_file_ascii_unchanged (E : env) (file_id : option pystr)
  (w : world) (b : list byte) :
  get_media E file_id = Ret b ->
  Forall (fun x => Byte.to_N x < 128) b ->
  fst (extract_text_file E file_id w) = Ret (List.map Byte.to_N b).
Proof.
  intros G Hb. unfold extract_text_file, try_except, bind, ret.
  rewrite download_file_run, G. cbn.
  unfold decode_replace. rewrite (scan_ascii b Hb), List.map_map.
  reflexivity.
Qed.

Lemma text_file_ascii_unchanged_witness :
  fst (extract_text_file
         (sample_env (Ret (pyb "a b")) (fun _ => Raise boom) (Raise boom)
            (Raise boom) (Raise boom) (Raise boom) (Ret tt))
         (Some (py "f1")) w0)
  = Ret (py "a b").
Proof.
  apply (text_file_ascii_unchanged
           (sample_env (Ret (pyb "a b")) (fun _ => Raise boom) (Raise boom)
              (Raise boom) (Raise boom) (Raise boom) (Ret tt))
           (Some (py "f1")) w0 (pyb "a b")).
  - reflexivity.
  - repeat constructor.
Defined.

(** X13. A text file and an exported Google Doc that hold the UTF-8
    encoding of a text, any sequence of characters that are not
    surrogates, come back as exactly that text. *)
Theorem utf8_text_read_back (E : env) (file_id : option pystr) (w : world)
  (text : pystr) :
  Forall (fun c => scalar c = true) text ->
  (get_media E file_id = Ret (utf8 text) ->
   fst (extract_text_file E file_id w) = Ret text) /\
  (export_media E file_id (py "text/plain") = Ret (utf8 text) ->
   fst (extract_google_doc E file_id w) = Ret text).
Proof.
  intros Ht.
  assert (Hw : well_formed (utf8 text) = true)
    by (apply well_formed_valid; now exists text).
  split.
  - intros G. unfold extract_text_file, try_except, bind, ret.
    rewrite download_file_run, G. cbn.
    now rewrite (decode_well_formed _ Hw), code_points_utf8.
  - intros X. unfold extract_google_doc, try_except, bind, decode_strict, ret.
    rewrite export_google_doc_run, X, Hw. cbn.
    now rewrite code_points_utf8.
Qed.

Lemma utf8_text_read_back_witness :
  fst (extract_text_file euro_text (Some (py "t1")) w0) = Ret [8364] /\
  fst (extract_google_doc euro_doc (Some (py "d1")) w0) = Ret [8364].
Proof.
  split.
  - apply (utf8_text_read_back euro_text (Some (py "t1")) w0 [8364]).
    + repeat constructor.
    + reflexivity.
  - apply (utf8_text_read_back euro_doc (Some (py "d1")) w0 [8364]).
    + repeat constructor.
    + reflexivity.
Defined.

(** ** What an extraction leaves behind *)

Section Frame.

Context (E : env) (file_id : option pystr).

Lemma framed_download w :
  framed file_id w (logged (GetMedia file_id) w).
Proof.
  split; [| left; reflexivity].
  exists [GetMedia file_id]. repeat split; [cbn; lia |].
  repeat constructor.
Qed.

Lemma framed_export mime_type w :
  framed file_id w (logged (ExportMedia file_id mime_type) w).
Proof.
  split; [| left; reflexivity].
  exists [ExportMedia file_id mime_type]. repeat split; [cbn; lia |].
  constructor; [right; eauto | constructor].
Qed.

Lemma framed_exports m1 m2 w :
  framed file_id w
    (logged (ExportMedia file_id m2) (logged (ExportMedia file_id m1) w)).
Proof.
  split; [| left; reflexivity].
  exists [ExportMedia file_id m1; ExportMedia file_id m2].
  repeat split; [cbn; now rewrite <- app_assoc | cbn; lia |].
  repeat (constructor; [right; eauto |]). constructor.
Qed.

Ltac frame :=
  unfold try_except, bind, lift, ret, raise, decode_strict;
  rewrite ?download_file_run, ?export_google_doc_run; cbn beta iota;
  repeat first
    [ apply framed_download
    | apply framed_export
    | apply framed_exports
    | rewrite extract_text_from_pdf_bytes_run
    | rewrite export_google_doc_run
    | progress cbn beta iota delta [snd]
    | match goal with
      | |- context [match ?x with _ => _ end] =>
          lazymatch x with
          | get_media _ _ => destruct x
          | export_media _ _ _ => destruct x
          | well_formed _ => destruct x
          | BeautifulSoup _ _ => destruct x
          end
      end ].

Lemma extract_google_doc_framed w :
  framed file_id w (snd (extract_google_doc E file_id w)).
Proof. unfold extract_google_doc. frame. Qed.

Lemma extract_google_sheet_framed w :
  framed file_id w (snd (extract_google_sheet E file_id w)).
Proof. unfold extract_google_sheet. frame. Qed.

Lemma extract_google_slides_framed w :
  framed file_id w (snd (extract_google_slides E file_id w)).
Proof. unfold extract_google_slides. frame. Qed.

Lemma extract_pdf_framed w :
  framed file_id w (snd (extract_pdf E file_id w)).
Proof. unfold extract_pdf. frame. Qed.

Lemma extract_text_file_framed w :
  framed file_id w (snd (extract_text_file E file_id w)).
Proof. unfold extract_text_file. frame. Qed.

Lemma extract_html_framed w :
  framed file_id w (snd (extract_html E file_id w)).
Proof.
  unfold extract_html. destruct (BS4_AVAILABLE E); cbn [negb].
  - frame.
  - split; [exists []; rewrite app_nil_r; repeat split; [cbn; lia | constructor]
           | left; reflexivity].
Qed.

(** The block that stores the download and hands it to a parser sends
    nothing, and leaves the directory as it was or with the one file it
    made. *)
Lemma temp_file_parse_world {A} (b : list byte)
  (parse : list byte -> outcome A) (text : A -> pystr) w :
  let w' :=
    snd ((temp_path <- NamedTemporaryFile E ;;
          write E temp_path b ;;;
          data <- read_file temp_path ;;
          doc <- lift (parse data) ;;
          try_except (unlink E temp_path) (fun _ => ret tt) ;;;
          ret (text doc)) w) in
  requests w' = requests w /\
  (tmpfiles w' = tmpfiles w \/
   exists data,
     tmpfiles w' = <[fresh (dom (tmpfiles w)) := data]> (tmpfiles w)).
Proof.
  unfold bind, NamedTemporaryFile, write, read_file, lift, try_except,
    unlink, ret.
  destruct (tempfile_error E); [cbn; auto |].
  destruct (write_error E); [cbn; eauto |]. cbn.
  rewrite !lookup_insert_eq, insert_insert_eq.
  destruct (parse b); [| cbn; eauto].
  destruct (unlink_error E); [cbn; eauto |]. cbn.
  rewrite !lookup_insert_eq. cbn.
  split; [reflexivity | left].
  rewrite delete_insert_eq. apply delete_id, not_elem_of_dom, is_fresh.
Qed.

Lemma guarded_download_framed (k : list byte -> M pystr) (h : exn -> pystr) w :
  (forall b w1,
     requests (snd (k b w1)) = requests w1 /\
     (tmpfiles (snd (k b w1)) = tmpfiles w1 \/
      exists data,
        tmpfiles (snd (k b w1))
        = <[fresh (dom (tmpfiles w1)) := data]> (tmpfiles w1))) ->
  framed file_id w
    (snd (try_except
            (content <- download_file E file_id ;;
             match content with
             | Some b => k b
             | None => ret []
             end)
            (fun e => ret (h e)) w)).
Proof.
  intros Hk. unfold try_except, bind. rewrite download_file_run.
  destruct (get_media E file_id) as [b | e]; [| apply framed_download].
  specialize (Hk b (logged (GetMedia file_id) w)).
  destruct (k b (logged (GetMedia file_id) w)) as [[s | e] w1];
    cbn in *; destruct Hk as [Hr Ht]; (split; [| exact Ht]);
    exists [GetMedia file_id]; rewrite Hr;
    (repeat split; [cbn; lia | repeat constructor]).
Qed.

Lemma extract_docx_framed w :
  framed file_id w (snd (extract_docx E file_id w)).
Proof.
  unfold extract_docx. destruct (DOCX_AVAILABLE E); cbn [negb].
  - apply guarded_download_framed. intros b w1.
    apply (temp_file_parse_world b (docx_Document E)
             (fun doc => join NL (docx_paragraphs doc))).
  - split; [exists []; rewrite app_nil_r; repeat split; [cbn; lia | constructor]
           | left; reflexivity].
Qed.

Lemma extract_pptx_framed w :
  framed file_id w (snd (extract_pptx E file_id w)).
Proof.
  unfold extract_pptx. destruct (PPTX_AVAILABLE E); cbn [negb].
  - apply guarded_download_framed. intros b w1.
    apply (temp_file_parse_world b (pptx_Presentation E)
             (fun slides => join (NL ++ NL) (pptx_full_text slides))).
  - split; [exists []; rewrite app_nil_r; repeat split; [cbn; lia | constructor]
           | left; reflexivity].
Qed.

End Frame.

Lemma extract_file_content_framed E fi w :
  framed (fi_id fi) w (snd (extract_file_content E fi w)).
Proof.
  unfold extract_file_content.
  repeat case_bool_decide;
    auto using extract_google_doc_framed, extract_google_sheet_framed,
      extract_google_slides_framed, extract_pdf_framed, extract_docx_framed,
      extract_pptx_framed, extract_text_file_framed, extract_html_framed.
  split; [exists []; rewrite app_nil_r; repeat split; [cbn; lia | constructor]
         | left; reflexivity].
Qed.

(** X14. For one file the dispatcher sends at most two requests, each a
    download or an export of that very file, after the requests sent
    before, which it leaves in place: it never asks for another file and
    never calls OpenAI. *)
Theorem dispatcher_requests_own_file (E : env) (fi : file_info) (w : world) :
  exists new,
    requests (snd (extract_file_content E fi w)) = requests w ++ new /\
    (List.length new <= 2)%nat /\
    Forall (fun r => r = GetMedia (fi_id fi) \/
                     exists mime_type, r = ExportMedia (fi_id fi) mime_type)
           new.
Proof. exact (proj1 (extract_file_content_framed E fi w)). Qed.

(** X15. The dispatcher leaves every file of the temporary directory as
    it found it: afterwards the directory is the same, or holds one file
    more, under a name that was not in use. *)
Theorem dispatcher_keeps_temp_files (E : env) (fi : file_info) (w : world) :
  let w' := snd (extract_file_content E fi w) in
  (forall path data,
     tmpfiles w !! path = Some data -> tmpfiles w' !! path = Some data) /\
  (size (tmpfiles w') <= S (size (tmpfiles w)))%nat.
Proof.
  intros w'. subst w'.
  destruct (extract_file_content_framed E fi w) as [_ [-> | [data ->]]].
  - split; [auto | lia].
  - assert (Hfresh : tmpfiles w !! fresh (dom (tmpfiles w)) = None)
      by apply not_elem_of_dom, is_fresh.
    split.
    + intros path d Hp. rewrite lookup_insert_ne; [exact Hp |].
      intros <-. rewrite Hfresh in Hp. discriminate.
    + rewrite map_size_insert_None by exact Hfresh. lia.
Qed.

(** ** DOCX and PPTX when the library accepts the download *)

Lemma docx_paragraphs_all (paragraphs : list pystr) :
  docx_paragraphs paragraphs = paragraphs.
Proof.
  unfold docx_paragraphs.
  enough (forall acc,
    fold_left (fun full_text para => full_text ++ [para]) paragraphs acc
    = acc ++ paragraphs) as H by apply (H []).
  induction paragraphs as [| para rest IH]; intros acc; cbn.
  - now rewrite app_nil_r.
  - rewrite IH, <- app_assoc. reflexivity.
Qed.

(** X16. When python-docx accepts the download and the temporary
    directory works, the DOCX extractor returns the texts of the
    paragraphs, in document order, joined by newlines, and leaves the
    temporary directory exactly as it found it; the one request it sent
    is the download. *)
Theorem docx_paragraphs_joined (E : env) (file_id : option pystr)
  (w : world) (b : list byte) (paragraphs : list pystr) :
  DOCX_AVAILABLE E = true ->
  get_media E file_id = Ret b ->
  tempfile_error E = None -> write_error E = None ->
  unlink_error E = None ->
  docx_Document E b = Ret paragraphs ->
  extract_docx E file_id w
  = (Ret (join NL paragraphs),
     {| tmpfiles := tmpfiles w;
        requests := requests w ++ [GetMedia file_id] |}).
Proof.
  intros Ha G Ht Hw Hu Hd.
  rewrite (extract_docx_parsed E file_id w b paragraphs) by assumption.
  now rewrite docx_paragraphs_all.
Qed.

Lemma docx_paragraphs_joined_witness :
  extract_docx
    (sample_env (Ret (pyb "PK")) (fun _ => Raise boom) (Raise boom)
       (Ret [py "Dear all,"; []; py "Bye"]) (Raise boom) (Raise boom)
       (Ret tt))
    (Some (py "f1")) w0
  = (Ret (py "Dear all," ++ NL ++ NL ++ py "Bye"),
     World ∅ [GetMedia (Some (py "f1"))]).
Proof.
  apply (docx_paragraphs_joined
           (sample_env (Ret (pyb "PK")) (fun _ => Raise boom) (Raise boom)
              (Ret [py "Dear all,"; []; py "Bye"]) (Raise boom) (Raise boom)
              (Ret tt))
           (Some (py "f1")) w0 (pyb "PK") [py "Dear all,"; []; py "Bye"]);
    reflexivity.
Defined.

(** ** The summarizer *)

Lemma truthy_of_strip (text : pystr) :
  truthy (strip text) = true -> truthy text = true.
Proof. destruct text; [discriminate | reflexivity]. Qed.

(** X17. For a text that is not blank, once the OpenAI client is
    constructed the summarizer returns a summary whatever the completion
    does, after exactly one completion request.  The prompt of that
    request is the instruction followed by the text when the text has at
    most 32000 characters, and never has more than 32097 characters. *)
Theorem summarizer_prompt_bounded (E : env) (content : pystr) (w : world) :
  truthy (strip content) = true ->
  OpenAI E = Ret tt ->
  exists sm prompt,
    generate_content_summary E content w
    = (Ret sm, logged (ChatCompletion prompt) (logged OpenAIClient w)) /\
    N.of_nat (List.length prompt) <= 32097 /\
    (N.of_nat (List.length content) <= 32000 ->
     prompt = prompt_instruction ++ content) /\
    (forall e, chat_completion E prompt = Raise e ->
       sm = {| summary := py "Error generating summary: " ++ str e;
               key_concepts := [py "Summary generation failed"] |}).
Proof.
  intros Hs Ho. unfold generate_content_summary.
  rewrite (truthy_of_strip _ Hs), Hs. cbn [negb orb].
  unfold bind at 1, send. unfold bind at 1, lift at 1. rewrite Ho.
  cbv zeta. unfold try_except, bind, send, lift, ret.
  set (limit := N.to_nat (8000 * 4)).
  set (too_long := 8000 * 4 <? N.of_nat (List.length content)).
  match goal with
  | |- context [chat_completion E ?p] => set (prompt := p)
  end.
  assert (Hbound : N.of_nat (List.length prompt) <= 32097).
  { subst prompt. rewrite !length_app.
    replace (List.length
               (py "Please summarize this document and extract its key concepts:"))
      with 60%nat by reflexivity.
    replace (List.length NL) with 1%nat by reflexivity.
    destruct too_long eqn:Hlong; subst too_long.
    - rewrite !length_app, length_take.
      replace (List.length (py "[Content truncated due to length]"))
        with 33%nat by reflexivity.
      replace (List.length NL) with 1%nat by reflexivity.
      subst limit. lia.
    - apply N.ltb_ge in Hlong. lia. }
  assert (Hshort : N.of_nat (List.length content) <= 32000 ->
                   prompt = prompt_instruction ++ content).
  { intros Hlen. subst prompt.
    assert (Hlong : too_long = false) by (apply N.ltb_ge; lia).
    rewrite Hlong. unfold prompt_instruction.
    now rewrite <- !app_assoc. }
  destruct (chat_completion E prompt) as [[[s |] [k |]] | e] eqn:Hc;
    eexists; exists prompt;
    (split; [reflexivity |]); (split; [exact Hbound |]);
    (split; [exact Hshort |]); intros e' He'; rewrite Hc in He';
    first [discriminate He' | injection He' as <-; reflexivity].
Qed.

Lemma summarizer_prompt_bounded_witness :
  exists sm,
    generate_content_summary offline (py "hello") w0
    = (Ret sm,
       World ∅ [OpenAIClient; ChatCompletion (prompt_instruction ++ py "hello")]).
Proof.
  destruct (summarizer_prompt_bounded offline (py "hello") w0)
    as (sm & prompt & Hrun & _ & Hshort & _); [reflexivity | reflexivity |].
  exists sm. rewrite Hrun, Hshort; [reflexivity |].
  cbn. lia.
Defined.

(** ** HTML: the shape of the output *)

Section HtmlShape.

Implicit Types s cur line piece chunk : pystr.

Lemma occurs_Forall (P : N -> Prop) a b :
  occurs a b -> Forall P b -> Forall P a.
Proof.
  intros (l & r & ->) H.
  apply Forall_app in H as [_ H]. apply Forall_app in H as [H _]. exact H.
Qed.

Lemma splitlines_aux_lines (m : nat) :
  forall s cur line, (List.length s <= m)%nat ->
    Forall (fun c => is_linebreak c = false) cur ->
    line ∈ splitlines_aux cur s ->
    Forall (fun c => is_linebreak c = false) line.
Proof.
  assert (Hrev : forall cur, Forall (fun c => is_linebreak c = false) cur ->
                   Forall (fun c => is_linebreak c = false) (rev cur)).
  { intros cur H. apply List.Forall_forall. intros x Hx.
    apply in_rev in Hx. revert x Hx. now apply List.Forall_forall. }
  induction m as [| m IH]; intros s cur line Hlen Hcur.
  - destruct s; [| cbn in Hlen; lia]. cbn.
    destruct cur; [intros H; inversion H |].
    intros H. apply list_elem_of_singleton in H as ->. now apply Hrev.
  - destruct s as [| c s'].
    + cbn. destruct cur; [intros H; inversion H |].
      intros H. apply list_elem_of_singleton in H as ->. now apply Hrev.
    + cbn [splitlines_aux]. cbn in Hlen.
      destruct (is_linebreak c) eqn:Hc.
      * intros H. apply elem_of_cons in H as [-> | H]; [now apply Hrev |].
        destruct s' as [| d s''].
        -- apply (IH [] []) in H; [exact H | cbn; lia | constructor].
        -- destruct ((c =? 13) && (d =? 10)).
           ++ apply (IH s'' []) in H; [exact H | cbn in *; lia | constructor].
           ++ apply (IH (d :: s'') []) in H;
                [exact H | cbn in *; lia | constructor].
      * intros H. apply IH in H; [exact H | lia |].
        constructor; assumption.
Qed.

Lemma html_chunks_no_linebreak text chunk :
  chunk ∈ html_chunks text -> Forall (fun c => is_linebreak c = false) chunk.
Proof.
  unfold html_chunks. intros H.
  apply list_elem_of_In, in_flat_map in H as (line & Hline & Hchunk).
  apply in_map_iff in Hline as (raw & <- & Hraw).
  apply in_map_iff in Hchunk as (piece & <- & Hpiece).
  apply list_elem_of_In in Hraw, Hpiece.
  apply (splitlines_aux_lines (List.length text) text []) in Hraw;
    [| lia | constructor].
  apply split2_occurs in Hpiece.
  eapply occurs_Forall; [apply strip_occurs |].
  eapply occurs_Forall; [exact Hpiece |].
  eapply occurs_Forall; [apply strip_occurs | exact Hraw].
Qed.

(** *** [strip] twice *)

Lemma lstrip_head s :
  lstrip s = [] \/ exists c r, lstrip s = c :: r /\ isspace c = false.
Proof.
  induction s as [| c s IH]; [now left |].
  cbn. destruct (isspace c) eqn:Hc; [exact IH |]. right. eauto.
Qed.

Lemma rstrip_cons c s : isspace c = false -> rstrip (c :: s) = c :: rstrip s.
Proof. intros Hc. cbn. rewrite Hc. now destruct (rstrip s). Qed.

Lemma rstrip_rstrip s : rstrip (rstrip s) = rstrip s.
Proof.
  induction s as [| c s IH]; [reflexivity |].
  cbn. destruct (rstrip s) as [| x r] eqn:Hr.
  - destruct (isspace c) eqn:Hc; [reflexivity |]. cbn. now rewrite Hc.
  - change (rstrip (c :: x :: r)) with
      (match rstrip (x :: r) with
       | [] => if isspace c then [] else [c]
       | r' => c :: r'
       end).
    now rewrite IH.
Qed.

Lemma strip_strip s : strip (strip s) = strip s.
Proof.
  unfold strip. destruct (lstrip_head s) as [-> | (c & r & -> & Hc)];
    [reflexivity |].
  rewrite (rstrip_cons c r Hc). cbn [lstrip]. rewrite Hc.
  now rewrite (rstrip_cons c _ Hc), rstrip_rstrip.
Qed.

(** *** Adjacent spaces *)

Lemma single_spaced_contains s :
  single_spaced s = negb (contains [32; 32] s).
Proof.
  induction s as [| c s IH]; [reflexivity |].
  destruct s as [| d s'].
  - cbn. now rewrite andb_false_r.
  - change (single_spaced (c :: d :: s')) with
      (negb ((c =? 32) && (d =? 32)) && single_spaced (d :: s'))%bool.
    change (contains [32; 32] (c :: d :: s')) with
      (((32 =? c) && ((32 =? d) && true)) || contains [32; 32] (d :: s'))%bool.
    rewrite IH, negb_orb, andb_true_r.
    now rewrite (N.eqb_sym 32 c), (N.eqb_sym 32 d).
Qed.

Lemma single_spaced_occurs a b :
  occurs a b -> single_spaced b = true -> single_spaced a = true.
Proof.
  rewrite !single_spaced_contains, !negb_true_iff. intros Hab Hb.
  destruct (contains [32; 32] a) eqn:Ha; [| reflexivity].
  apply contains_occurs in Ha.
  assert (H : occurs [32; 32] b) by eauto using occurs_trans.
  apply contains_occurs in H. congruence.
Qed.

Lemma single_spaced_snoc s c :
  single_spaced (s ++ [c]) =
  (single_spaced s && negb ((List.last s 0 =? 32) && (c =? 32)))%bool.
Proof.
  induction s as [| a s IH]; [reflexivity |].
  destruct s as [| b t].
  - cbn. now rewrite andb_true_r.
  - change (single_spaced ((a :: b :: t) ++ [c])) with
      (negb ((a =? 32) && (b =? 32)) && single_spaced ((b :: t) ++ [c]))%bool.
    rewrite IH.
    change (single_spaced (a :: b :: t)) with
      (negb ((a =? 32) && (b =? 32)) && single_spaced (b :: t))%bool.
    change (List.last (a :: b :: t) 0) with (List.last (b :: t) 0).
    now rewrite andb_assoc.
Qed.

Lemma split2_aux_pieces (m : nat) :
  forall s cur piece, (List.length s <= m)%nat ->
    single_spaced (rev cur) = true ->
    (List.last (rev cur) 0 =? 32) && (List.hd 0 s =? 32) = false ->
    piece ∈ split2_aux cur s -> single_spaced piece = true.
Proof.
  induction m as [| m IH]; intros s cur piece Hlen Hcur Hedge.
  - destruct s; [| cbn in Hlen; lia]. cbn.
    intros H. now apply list_elem_of_singleton in H as ->.
  - destruct s as [| c s'].
    + cbn. intros H. now apply list_elem_of_singleton in H as ->.
    + cbn [split2_aux]. cbn in Hlen. cbn [List.hd] in Hedge.
      assert (Hstep : (c =? 32) && (List.hd 0 s' =? 32) = false ->
                      piece ∈ split2_aux (c :: cur) s' ->
                      single_spaced piece = true).
      { intros Hc H. apply IH in H; [exact H | lia | |].
        - cbn [rev]. now rewrite single_spaced_snoc, Hcur, Hedge.
        - cbn [rev]. now rewrite last_last. }
      destruct s' as [| d s''].
      * apply Hstep. cbn. apply andb_false_r.
      * destruct ((c =? 32) && (d =? 32)) eqn:Hpair; [| now apply Hstep].
        intros H. apply elem_of_cons in H as [-> | H]; [exact Hcur |].
        apply (IH s'' []) in H; [exact H | cbn in *; lia | reflexivity |].
        reflexivity.
Qed.

Lemma split2_pieces s piece :
  piece ∈ split2 s -> single_spaced piece = true.
Proof.
  apply (split2_aux_pieces (List.length s) s []); [lia | reflexivity..].
Qed.

(** Every line of the output is a normal line. *)
Lemma html_chunks_normal text chunk :
  chunk ∈ List.filter truthy (html_chunks text) -> normal_line chunk.
Proof.
  intros H. apply list_elem_of_In, filter_In in H as [Hin Ht].
  apply list_elem_of_In in Hin.
  split; [| split; [| split]].
  - intros ->. discriminate Ht.
  - now apply html_chunks_no_linebreak in Hin.
  - unfold html_chunks in Hin.
    apply list_elem_of_In, in_flat_map in Hin as (line & _ & Hchunk).
    apply in_map_iff in Hchunk as (piece & <- & _). apply strip_strip.
  - unfold html_chunks in Hin.
    apply list_elem_of_In, in_flat_map in Hin as (line & _ & Hchunk).
    apply in_map_iff in Hchunk as (piece & <- & Hpiece).
    apply list_elem_of_In, split2_pieces in Hpiece.
    eapply single_spaced_occurs; [apply strip_occurs | exact Hpiece].
Qed.

(** *** Reading normal lines back *)

Lemma splitlines_aux_app line cur s :
  Forall (fun c => is_linebreak c = false) line ->
  splitlines_aux cur (line ++ s) = splitlines_aux (rev line ++ cur) s.
Proof.
  intros H. revert cur. induction H as [| c line Hc _ IH]; intros cur.
  - reflexivity.
  - cbn [app splitlines_aux]. rewrite Hc, IH. cbn [rev].
    now rewrite <- app_assoc.
Qed.

Lemma splitlines_join lines :
  Forall normal_line lines -> splitlines (join NL lines) = lines.
Proof.
  unfold splitlines. induction 1 as [| line lines (Hne & Hnb & _) _ IH].
  - reflexivity.
  - assert (Hrev : rev (rev line ++ []) = line)
      by now rewrite app_nil_r, rev_involutive.
    destruct lines as [| line' lines'].
    + cbn [join]. rewrite <- (app_nil_r line) at 1.
      rewrite splitlines_aux_app by exact Hnb. cbn [splitlines_aux].
      destruct (rev line ++ []); [| now rewrite Hrev].
      cbn in Hrev. congruence.
    + change (join NL (line :: line' :: lines')) with
        (line ++ 10 :: join NL (line' :: lines')).
      rewrite splitlines_aux_app by exact Hnb.
      cbn [splitlines_aux]. cbn [is_linebreak N.leb N.eqb andb orb].
      change (is_linebreak 10) with true. cbv iota.
      rewrite Hrev. f_equal.
      destruct (join NL (line' :: lines')); exact IH.
Qed.

Lemma split2_single_spaced s cur :
  single_spaced s = true -> split2_aux cur s = [rev cur ++ s].
Proof.
  revert cur. induction s as [| c s IH]; intros cur H.
  - cbn. now rewrite app_nil_r.
  - cbn [split2_aux]. destruct s as [| d s'].
    + reflexivity.
    + change (single_spaced (c :: d :: s')) with
        (negb ((c =? 32) && (d =? 32)) && single_spaced (d :: s'))%bool in H.
      apply andb_true_iff in H as [Hp H]. apply negb_true_iff in Hp.
      rewrite Hp, IH by exact H. cbn [rev]. now rewrite <- app_assoc.
Qed.

Lemma html_chunks_join lines :
  Forall normal_line lines ->
  List.filter truthy (html_chunks (join NL lines)) = lines.
Proof.
  intros H. unfold html_chunks. rewrite splitlines_join by exact H.
  induction H as [| line lines (Hne & _ & Hs & Hd) _ IH]; [reflexivity |].
  cbn [List.map flat_map]. rewrite Hs. unfold split2 at 1.
  rewrite split2_single_spaced by exact Hd. cbn [rev app List.map].
  rewrite Hs. cbn [app List.filter].
  destruct line; [congruence |]. cbn [truthy]. now rewrite IH.
Qed.

End HtmlShape.

(** X18. What the HTML extractor makes of a page's text is in a final
    form: newline-separated lines, each of them not empty, without white
    space at either end, without line boundary and without two adjacent
    spaces; cleaning it once more changes nothing. *)
Theorem html_text_normal_form (text : pystr) :
  (exists lines,
     html_text text = join NL lines /\ Forall normal_line lines) /\
  html_text (html_text text) = html_text text.
Proof.
  assert (H : Forall normal_line (List.filter truthy (html_chunks text))).
  { apply List.Forall_forall. intros chunk H.
    apply list_elem_of_In in H. exact (html_chunks_normal _ _ H). }
  split.
  - exists (List.filter truthy (html_chunks text)). split; [reflexivity | exact H].
  - unfold html_text. now rewrite html_chunks_join.
Qed.
